(** * Univerz particle backgrounds: a shallow embedding

  Three canvas backgrounds share one shape (seed, integrate, draw):
  - [Network]   : src/components/ParticleBackground.tsx (constellation net,
                  the pointer attracts),
  - [Repulsion] : the drifting-particle variant (the pointer repels),
  - [Grid]      : the grid-glow variant (a smoothed pointer lights a grid).

  A JavaScript [number] is read as a real number: the arithmetic of the
  source is exact arithmetic here, so rounding, overflow and underflow of
  binary64 are outside the model.  The one operation of the source that
  turns finite operands into a non-finite result, a division whose divisor
  may be zero, is kept partial ([JS.div]).  [Math.random] is an explicit
  sequence of draws threaded through the seeders.  The canvas is a list of
  drawing commands returned by each frame. *)

From Stdlib Require Import Reals Lra Lia ZArith List Bool String Psatz.
Import ListNotations.
Local Open Scope R_scope.

(** ** JavaScript numbers *)

Module JS.

(** [a < b] and [a > b] on numbers. *)
Definition ltb (a b : R) : bool := if Rlt_dec a b then true else false.
Definition gtb (a b : R) : bool := ltb b a.

(** [a / b]: [None] stands for the non-finite result (Infinity or NaN) that
    JavaScript yields when the divisor is zero. *)
Definition div (a b : R) : option R :=
  if Req_dec_T b 0 then None else Some (a / b).

Definition bind {A B : Type} (m : option A) (k : A -> option B) : option B :=
  match m with
  | Some a => k a
  | None => None
  end.

(** [Math.floor], [Math.max] on integers, [Math.sqrt], [Math.sin]. *)
Definition Math_floor (a : R) : Z := Zfloor a.
Definition Math_max (a b : Z) : Z := Z.max a b.
Definition Math_sqrt (a : R) : R := sqrt a.
Definition Math_sin (a : R) : R := sin a.
Definition Math_PI : R := PI.

(** [Math.random()]: the k-th draw of the run. *)
Definition Random := nat -> R.
Definition draws_ok (rand : Random) : Prop := forall k, 0 <= rand k < 1.

(** Optional drawing command to the list of commands it emits. *)
Definition emit {A : Type} (o : option A) : list A :=
  match o with
  | Some a => [a]
  | None => []
  end.

End JS.

Notation "v <- m ;; k" := (JS.bind m (fun v => k))
(at level 61, m at next level, right associativity).

(** Euclidean distance between two points of the plane: the measure in
  which the properties below are stated. *)
Definition euclid (ax ay bx by_ : R) : R :=
  sqrt ((ax - bx) * (ax - bx) + (ay - by_) * (ay - by_)).

(** One smoothing step seen from outside: [c] and [c'] are the rendered
  coordinates before and after the frame, [g'] the home coordinates after
  it, [t] the smoothing factor.  The rendered position ends on the segment
  from where it was to the frame's home position, [1 - t] times as far from
  that home position as it was. *)
Definition settles (t cx cy cx' cy' gx' gy' : R) : Prop :=
  euclid cx' cy' gx' gy' = (1 - t) * euclid cx cy gx' gy'
  /\ euclid cx' cy' gx' gy' <= euclid cx cy gx' gy'
  /\ (cx <= gx' -> cx <= cx' <= gx') /\ (gx' <= cx -> gx' <= cx' <= cx)
  /\ (cy <= gy' -> cy <= cy' <= gy') /\ (gy' <= cy -> gy' <= cy' <= cy).

(** ** Canvas commands *)

(** What a frame asks of the 2D context: [clearRect]; a stroked segment with
  an [rgba] stroke style and a line width; a disc filled with a radial
  gradient that fades from [rgba(color, alpha)] at the centre to transparent
  at [radius]; a disc filled with one colour at one alpha. *)

Inductive Color : Type :=
| Rgb (red green blue : Z)
| Hex (code : string).

Inductive Cmd : Type :=
| ClearRect (w h : R)
| Stroke (x1 y1 x2 y2 : R) (c : Color) (alpha lineWidth : R)
| FillGradient (cx cy radius : R) (c : Color) (alpha : R)
| FillArc (cx cy radius : R) (c : Color) (alpha : R).

(** ** The constellation network (src/components/ParticleBackground.tsx) *)

Module Network.

Definition NODE_DENSITY : R := 0.00008.
Definition CONNECT_DIST : R := 180.
Definition MOUSE_CONNECT_DIST : R := 250.
Definition MOUSE_ATTRACT : R := 0.012.
Definition MOUSE_RADIUS : R := 280.
Definition DRIFT_SPEED : R := 0.15.
Definition LERP_RETURN : R := 0.03.
Definition NODE_MIN_R : R := 1.0.
Definition NODE_MAX_R : R := 2.2.
Definition NODE_COLOR : Color * R := (Rgb 180 180 195, 0.7).
Definition LINE_BASE_COLOR : Color := Rgb 160 160 175.
Definition MOUSE_LINE_COLOR : Color := Rgb 225 112 68.
Definition MOUSE_NODE_GLOW : Color * R := (Rgb 225 112 68, 0.35).

Definition lerp (a b t : R) : R := a + (b - a) * t.

Definition dist (ax ay bx by_ : R) : R :=
  let dx := ax - bx in
  let dy := ay - by_ in
  JS.Math_sqrt (dx * dx + dy * dy).

Record Node : Type := mkNode {
  x : R; y : R;        (* rendered position *)
  ox : R; oy : R;      (* origin (drift) position *)
  vx : R; vy : R;      (* drift velocity *)
  r : R;               (* radius *)
  phase : R            (* for subtle pulse *)
}.

(** What seeding fixes in a node: velocity, radius and phase. *)
Definition fixed_part (n : Node) : R * R * R * R :=
  (vx n, vy n, r n, phase n).

Record Mouse : Type := mkMouse { mx : R; my : R; active : bool }.

Record Field : Type := mkField {
  nodes : list Node;
  mouse : Mouse;
  W : Z; H : Z;
  t : R
}.

(** [let mouse = { x: -9999, y: -9999, active: false }], no node, [t = 0]. *)
Definition mouse0 : Mouse := mkMouse (-9999) (-9999) false.
Definition field0 : Field := mkField [] mouse0 0 0 0.

(** *** Seeder: [seed] *)

Definition seed_count (w h : Z) : Z :=
  let area := IZR w * IZR h in
  JS.Math_max 40 (JS.Math_floor (area * NODE_DENSITY)).

(** The loop body draws six numbers per node, in the order of the object
    literal; [k] is the index of the next draw. *)
Fixpoint seed_loop (rand : JS.Random) (k : nat) (count : nat) (w h : Z)
  : list Node :=
  match count with
  | O => []
  | S count' =>
      let x0 := rand k * IZR w in
      let y0 := rand (k + 1)%nat * IZR h in
      mkNode x0 y0 x0 y0
        ((rand (k + 2)%nat - 0.5) * DRIFT_SPEED * 2)
        ((rand (k + 3)%nat - 0.5) * DRIFT_SPEED * 2)
        (NODE_MIN_R + rand (k + 4)%nat * (NODE_MAX_R - NODE_MIN_R))
        (rand (k + 5)%nat * JS.Math_PI * 2)
      :: seed_loop rand (k + 6) count' w h
  end.

Definition seed (rand : JS.Random) (w h : Z) : list Node :=
  seed_loop rand 0 (Z.to_nat (seed_count w h)) w h.

(** [resize]: new dimensions, new collection. *)
Definition resize (rand : JS.Random) (w h : Z) (f : Field) : Field :=
  mkField (seed rand w h) (mouse f) w h (t f).

(** A freshly seeded node: drawn on its home position, inside the viewport. *)
Definition starts_inside (w h : Z) (n : Node) : Prop :=
  x n = ox n /\ y n = oy n
  /\ 0 <= x n <= IZR w /\ 0 <= y n <= IZR h.

(** *** Integrator: step 1 of [animate] *)

(** The two wrap tests of one axis, in source order; [c] is the coordinate
    after [n.ox += n.vx]. *)
Definition wrap (c : R) (dim : Z) : R :=
  let c1 := if JS.ltb c (-20) then IZR dim + 20 else c in
  if JS.gtb c1 (IZR dim + 20) then -20 else c1.

(** The wrap invariant of a home position in a [w] by [h] viewport. *)
Definition home_inv (w h : Z) (n : Node) : Prop :=
  (-20 <= ox n <= IZR w + 20) /\ (-20 <= oy n <= IZR h + 20).

(** Attract toward cursor (stronger when closer): the local [strength]. *)
Definition strength (d : R) : R := (1 - d / MOUSE_RADIUS) * MOUSE_ATTRACT.

(** Target = origin, unless the mouse pulls it. *)
Definition target (m : Mouse) (ox' oy' : R) : R * R :=
  if active m then
    let d := dist ox' oy' (mx m) (my m) in
    if JS.ltb d MOUSE_RADIUS && JS.gtb d 0 then
      (ox' + (mx m - ox') * strength d * 12,
       oy' + (my m - oy') * strength d * 12)
    else (ox', oy')
  else (ox', oy').

(** How far the target is displaced from the home position. *)
Definition pull (m : Mouse) (ox' oy' : R) : R :=
  let tg := target m ox' oy' in
  euclid (fst tg) (snd tg) ox' oy'.

Definition update (w h : Z) (m : Mouse) (n : Node) : Node :=
  let ox' := wrap (ox n + vx n) w in
  let oy' := wrap (oy n + vy n) h in
  let '(tx, ty) := target m ox' oy' in
  mkNode (lerp (x n) tx (LERP_RETURN + 0.04))
         (lerp (y n) ty (LERP_RETURN + 0.04))
         ox' oy' (vx n) (vy n) (r n) (phase n).

(** *** Spatial interaction pass: step 2 of [animate] *)

(** Body of the inner loop for the pair [(a, b)]. *)
Definition node_edge (a b : Node) : option Cmd :=
  let d := dist (x a) (y a) (x b) (y b) in
  if JS.ltb d CONNECT_DIST then
    let opacity := (1 - d / CONNECT_DIST) * 0.35 in
    Some (Stroke (x a) (y a) (x b) (y b) LINE_BASE_COLOR opacity 0.6)
  else None.

(** Cursor to node edge. *)
Definition mouse_edge (m : Mouse) (a : Node) : option Cmd :=
  if active m then
    let dm := dist (x a) (y a) (mx m) (my m) in
    if JS.ltb dm MOUSE_CONNECT_DIST then
      let opacity := (1 - dm / MOUSE_CONNECT_DIST) * 0.55 in
      Some (Stroke (x a) (y a) (mx m) (my m) MOUSE_LINE_COLOR opacity 0.8)
    else None
  else None.

(** The double loop [for i / for j = i + 1]: the head of the list is
    [nodes[i]], its tail the nodes of larger index. *)
Fixpoint draw_edges (m : Mouse) (ns : list Node) : list Cmd :=
  match ns with
  | [] => []
  | a :: rest =>
      flat_map (fun b => JS.emit (node_edge a b)) rest
      ++ JS.emit (mouse_edge m a)
      ++ draw_edges m rest
  end.

(** *** Renderer: steps 3 and 4 of [animate] *)

Definition pulsed_radius (t' : R) (n : Node) : R :=
  let pulse := 1 + JS.Math_sin (t' * 2 + phase n) * 0.15 in
  r n * pulse.

Definition glows (m : Mouse) (n : Node) : bool :=
  if active m then
    JS.ltb (dist (x n) (y n) (mx m) (my m)) (MOUSE_CONNECT_DIST * 0.6)
  else false.

Definition draw_node (t' : R) (m : Mouse) (n : Node) : list Cmd :=
  let r' := pulsed_radius t' n in
  let glow := glows m n in
  (if glow then [FillGradient (x n) (y n) (r' * 5) (Rgb 225 112 68) 0.25]
   else [])
  ++ [if glow then FillArc (x n) (y n) r' (Rgb 225 112 68) 0.9
      else FillArc (x n) (y n) r' (fst NODE_COLOR) (snd NODE_COLOR)].

Definition draw_hub (m : Mouse) : list Cmd :=
  if active m then
    [FillGradient (mx m) (my m) 8 (fst MOUSE_NODE_GLOW) (snd MOUSE_NODE_GLOW)]
  else [].

(** *** One frame *)

Definition animate (f : Field) : Field * list Cmd :=
  let t' := t f + 0.008 in
  let ns := map (update (W f) (H f) (mouse f)) (nodes f) in
  (mkField ns (mouse f) (W f) (H f) t',
   ClearRect (IZR (W f)) (IZR (H f))
   :: draw_edges (mouse f) ns
   ++ flat_map (draw_node t' (mouse f)) ns
   ++ draw_hub (mouse f)).

(** *** Event handlers (resize is [resize] above) *)

Inductive Event : Type :=
| MouseMove (clientX clientY : R)
| MouseLeave
| TouchMove (touches : list (R * R))
| TouchEnd.

Definition handle (e : Event) (f : Field) : Field :=
  let set m := mkField (nodes f) m (W f) (H f) (t f) in
  match e with
  | MouseMove cx cy => set (mkMouse cx cy true)
  | MouseLeave => set (mkMouse (mx (mouse f)) (my (mouse f)) false)
  | TouchMove [] => f
  | TouchMove ((cx, cy) :: _) => set (mkMouse cx cy true)
  | TouchEnd => set (mkMouse (mx (mouse f)) (my (mouse f)) false)
  end.

(** A run: before each frame, the events delivered since the last one. *)
Fixpoint run (frames : list (list Event)) (f : Field) : Field :=
  match frames with
  | [] => f
  | es :: frames' =>
      run frames' (fst (animate (fold_left (fun g e => handle e g) es f)))
  end.

End Network.

(** ** The repulsion field (drifting particles pushed away by the pointer) *)

Module Repulsion.

Definition COLORS : list string :=
  ["#0A192F"; "#FDE047"; "#A855F7"; "#e17044"]%string.

Definition PARTICLE_COUNT_FACTOR : R := 80.
Definition MOUSE_RADIUS : R := 150.
Definition REPULSION_STRENGTH : R := 8.
Definition LERP_SPEED : R := 0.04.
Definition DRIFT_SPEED : R := 0.3.

Definition lerp (start end_ t : R) : R := start + (end_ - start) * t.

Record Particle : Type := mkParticle {
  x : R; y : R;            (* current rendered position *)
  baseX : R; baseY : R;    (* home position on the natural drift path *)
  vx : R; vy : R;          (* drift velocity *)
  radius : R; color : string; alpha : R
}.

(** What seeding fixes in a particle: velocity and visual properties. *)
Definition fixed_part (p : Particle) : R * R * R * string * R :=
  (vx p, vy p, radius p, color p, alpha p).

(** The pointer has no activity flag here: off-screen is [(-9999, -9999)]. *)
Record Mouse : Type := mkMouse { mx : R; my : R }.

Record Field : Type := mkField {
  particles : list Particle;
  mouse : Mouse;
  width : Z; height : Z
}.

Definition offscreen : Mouse := mkMouse (-9999) (-9999).
Definition field0 : Field := mkField [] offscreen 0 0.

(** *** Seeder: [initParticles] *)

Definition particle_count (w : Z) : Z :=
  JS.Math_floor ((IZR w / 1000) * PARTICLE_COUNT_FACTOR).

(** Seven draws per particle; an index outside [COLORS] reads as the empty
    string (the source would read [undefined]). *)
Fixpoint init_loop (rand : JS.Random) (k : nat) (count : nat) (w h : Z)
  : list Particle :=
  match count with
  | O => []
  | S count' =>
      let x0 := rand k * IZR w in
      let y0 := rand (k + 1)%nat * IZR h in
      mkParticle x0 y0 x0 y0
        ((rand (k + 2)%nat - 0.5) * DRIFT_SPEED * 2)
        ((rand (k + 3)%nat - 0.5) * DRIFT_SPEED * 2)
        (rand (k + 4)%nat * 2.5 + 1)
        (nth (Z.to_nat (JS.Math_floor
                (rand (k + 5)%nat * INR (List.length COLORS))))
             COLORS EmptyString)
        (rand (k + 6)%nat * 0.6 + 0.2)
      :: init_loop rand (k + 7) count' w h
  end.

Definition initParticles (rand : JS.Random) (w h : Z) : list Particle :=
  init_loop rand 0 (Z.to_nat (particle_count w)) w h.

Definition resize (rand : JS.Random) (w h : Z) (f : Field) : Field :=
  mkField (initParticles rand w h) (mouse f) w h.

(** *** Integrator: the loop body of [animate] *)

Definition wrap (c : R) (dim : Z) : R :=
  let c1 := if JS.ltb c (-10) then IZR dim + 10 else c in
  if JS.gtb c1 (IZR dim + 10) then -10 else c1.

(** The wrap invariant of a home position in a [w] by [h] viewport. *)
Definition home_inv (w h : Z) (p : Particle) : Prop :=
  (-10 <= baseX p <= IZR w + 10) /\ (-10 <= baseY p <= IZR h + 10).

(** Steps 2 and 3: the vector from the mouse to the home position, its
    length, and the pushed target.  The two quotients by [dist] are the
    places where a zero divisor would make the target non-finite. *)
Definition force (dist : R) : R :=
  (1 - dist / MOUSE_RADIUS) * REPULSION_STRENGTH.

Definition target (m : Mouse) (bx by_ : R) : option (R * R) :=
  let dx := bx - mx m in
  let dy := by_ - my m in
  let dist := JS.Math_sqrt (dx * dx + dy * dy) in
  if JS.ltb dist MOUSE_RADIUS && JS.gtb dist 0 then
    ux <- JS.div dx dist ;;
    uy <- JS.div dy dist ;;
    let pushX := ux * force dist * MOUSE_RADIUS * 0.1 in
    let pushY := uy * force dist * MOUSE_RADIUS * 0.1 in
    Some (bx + pushX, by_ + pushY)
  else Some (bx, by_).

(** How far the target is displaced from the home position. *)
Definition push (m : Mouse) (bx by_ : R) : option R :=
  tg <- target m bx by_ ;;
  Some (euclid (fst tg) (snd tg) bx by_).

Definition update (w h : Z) (m : Mouse) (p : Particle) : option Particle :=
  let bx := wrap (baseX p + vx p) w in
  let by_ := wrap (baseY p + vy p) h in
  tg <- target m bx by_ ;;
  Some (mkParticle (lerp (x p) (fst tg) LERP_SPEED)
                   (lerp (y p) (snd tg) LERP_SPEED)
                   bx by_ (vx p) (vy p) (radius p) (color p) (alpha p)).

(** Step 5, in the same loop: the particle is drawn where it now is. *)
Definition draw (p : Particle) : Cmd :=
  FillArc (x p) (y p) (radius p) (Hex (color p)) (alpha p).

Fixpoint animate_loop (w h : Z) (m : Mouse) (ps : list Particle)
  : option (list Particle * list Cmd) :=
  match ps with
  | [] => Some ([], [])
  | p :: rest =>
      p' <- update w h m p ;;
      out <- animate_loop w h m rest ;;
      Some (p' :: fst out, draw p' :: snd out)
  end.

(** One frame; [None] when a non-finite number reached a position. *)
Definition animate (f : Field) : option (Field * list Cmd) :=
  out <- animate_loop (width f) (height f) (mouse f) (particles f) ;;
  Some (mkField (fst out) (mouse f) (width f) (height f),
        ClearRect (IZR (width f)) (IZR (height f)) :: snd out).

(** *** Event handlers *)

Inductive Event : Type :=
| MouseMove (clientX clientY : R)
| MouseLeave
| TouchMove (touches : list (R * R))
| TouchEnd.

Definition handle (e : Event) (f : Field) : Field :=
  let set m := mkField (particles f) m (width f) (height f) in
  match e with
  | MouseMove cx cy => set (mkMouse cx cy)
  | MouseLeave => set offscreen
  | TouchMove [] => f
  | TouchMove ((cx, cy) :: _) => set (mkMouse cx cy)
  | TouchEnd => set offscreen
  end.

Fixpoint run (frames : list (list Event)) (f : Field) : option Field :=
  match frames with
  | [] => Some f
  | es :: frames' =>
      out <- animate (fold_left (fun g e => handle e g) es f) ;;
      run frames' (fst out)
  end.

End Repulsion.

(** ** The grid net (grid lines glow near a smoothed pointer) *)

Module Grid.

Definition CELL : R := 50.
Definition GLOW_RADIUS : R := 220.
Definition DOT_RADIUS : R := 2.
Definition BRAND : Color := Rgb 225 112 68.

Definition lerp (a b t : R) : R := a + (b - a) * t.

Record Point : Type := mkPoint { px : R; py : R }.

(** Raw mouse (set by events) and smooth mouse (lerped each frame). *)
Record State : Type := mkState {
  rawMouse : Point;
  mouse : Point;
  mouseActive : bool;
  W : Z; H : Z
}.

Definition state0 : State :=
  mkState (mkPoint (-9999) (-9999)) (mkPoint (-9999) (-9999)) false 0 0.

Definition resize (w h : Z) (s : State) : State :=
  mkState (rawMouse s) (mouse s) (mouseActive s) w h.

(** *** The smoothed pointer: the first statements of [animate] *)

Definition smooth (s : State) : Point :=
  let x1 := lerp (px (mouse s)) (px (rawMouse s)) 0.12 in
  let y1 := lerp (py (mouse s)) (py (rawMouse s)) 0.12 in
  if negb (mouseActive s) then
    mkPoint (lerp x1 (-9999) 0.05) (lerp y1 (-9999) 0.05)
  else mkPoint x1 y1.

(** The coordinate at which an inactive frame leaves the smooth mouse where
    it is, for a raw coordinate [raw]: the solution [c] of
    [lerp (lerp c raw 0.12) (-9999) 0.05 = c]. *)
Definition rest (raw : R) : R := (0.114 * raw - 499.95) / 0.164.

(** *** Glow *)

(** Distance of a point to the smooth mouse, and the intensity inside the
    glow radius; the three drawing loops all start this way. *)
Definition glow (m : Point) (qx qy : R) : option R :=
  let dx := qx - px m in
  let dy := qy - py m in
  let d := JS.Math_sqrt (dx * dx + dy * dy) in
  if JS.ltb d GLOW_RADIUS then Some (1 - d / GLOW_RADIUS) else None.

(** Indices of [for (i = 0; i <= n; i++)]. *)
Definition upto (n : Z) : list nat := seq 0 (Z.to_nat (n + 1)).

Definition cols (s : State) : Z := (Zceil (IZR (W s) / CELL) + 1)%Z.
Definition rows (s : State) : Z := (Zceil (IZR (H s) / CELL) + 1)%Z.

Definition segments : nat := 40.

Definition vertical_line (m : Point) (h : Z) (c : nat) : list Cmd :=
  let x := INR c * CELL in
  let dLine := Rabs (x - px m) in
  if JS.ltb dLine GLOW_RADIUS then
    let segH := IZR h / INR segments in
    flat_map (fun s =>
      let y1 := INR s * segH in
      let y2 := (INR s + 1) * segH in
      let midY := (y1 + y2) / 2 in
      match glow m x midY with
      | Some intensity =>
          [Stroke x y1 x y2 BRAND (intensity * intensity * 0.5)
                  (0.8 + intensity * 0.8)]
      | None => []
      end) (seq 0 segments)
  else [].

Definition horizontal_line (m : Point) (w : Z) (r : nat) : list Cmd :=
  let y := INR r * CELL in
  let dLine := Rabs (y - py m) in
  if JS.ltb dLine GLOW_RADIUS then
    let segW := IZR w / INR segments in
    flat_map (fun s =>
      let x1 := INR s * segW in
      let x2 := (INR s + 1) * segW in
      let midX := (x1 + x2) / 2 in
      match glow m midX y with
      | Some intensity =>
          [Stroke x1 y x2 y BRAND (intensity * intensity * 0.5)
                  (0.8 + intensity * 0.8)]
      | None => []
      end) (seq 0 segments)
  else [].

Definition intersection (m : Point) (c r : nat) : list Cmd :=
  let ix := INR c * CELL in
  let iy := INR r * CELL in
  match glow m ix iy with
  | Some intensity =>
      let alpha := intensity * intensity * 0.7 in
      let radius := DOT_RADIUS + intensity * 1.5 in
      (if JS.gtb intensity 0.3
       then [FillGradient ix iy (radius * 4) BRAND (alpha * 0.4)] else [])
      ++ [FillArc ix iy radius BRAND alpha]
  | None => []
  end.

(** Soft cursor glow hub. *)
Definition hub_drawn (active : bool) (m : Point) : bool :=
  active || JS.gtb (px m) (-5000).

Definition draw_hub (active : bool) (m : Point) : list Cmd :=
  if hub_drawn active m then
    [FillGradient (px m) (py m) (GLOW_RADIUS * 0.3) BRAND 0.06]
  else [].

(** *** One frame *)

Definition animate (s : State) : State * list Cmd :=
  let m := smooth s in
  (mkState (rawMouse s) m (mouseActive s) (W s) (H s),
   ClearRect (IZR (W s)) (IZR (H s))
   :: flat_map (vertical_line m (H s)) (upto (cols s))
   ++ flat_map (horizontal_line m (W s)) (upto (rows s))
   ++ flat_map (fun c => flat_map (intersection m c) (upto (rows s)))
               (upto (cols s))
   ++ draw_hub (mouseActive s) m).

(** *** Event handlers *)

Inductive Event : Type :=
| MouseMove (clientX clientY : R)
| MouseLeave
| TouchMove (touches : list (R * R))
| TouchEnd.

Definition handle (e : Event) (s : State) : State :=
  match e with
  | MouseMove cx cy => mkState (mkPoint cx cy) (mouse s) true (W s) (H s)
  | MouseLeave => mkState (rawMouse s) (mouse s) false (W s) (H s)
  | TouchMove [] => s
  | TouchMove ((cx, cy) :: _) =>
      mkState (mkPoint cx cy) (mouse s) true (W s) (H s)
  | TouchEnd => mkState (rawMouse s) (mouse s) false (W s) (H s)
  end.

Fixpoint run (frames : list (list Event)) (s : State) : State :=
  match frames with
  | [] => s
  | es :: frames' =>
      run frames' (fst (animate (fold_left (fun g e => handle e g) es s)))
  end.

(** [n] frames with no event in between. *)
Definition idle (n : nat) : list (list Event) := repeat [] n.

End Grid.

(** ** Mounting and teardown of the effect *)

Module Effect.

(** The host side of an effect: the listeners registered on [window] and
    [document], and the animation frame requests not yet served.  A callback
    is named by the function of the effect that is passed. *)
Inductive Target : Type := window | document.

Record Listener : Type := mkListener {
  on : Target; type : string; callback : string
}.

Definition Listener_eq_dec (a b : Listener) : {a = b} + {a <> b}.
Proof.
  decide equality; [apply string_dec | apply string_dec | decide equality].
Defined.

Record Host : Type := mkHost {
  listeners : list Listener;
  pending : list nat;     (* ids of the requests not yet served *)
  next : nat              (* the id the next request gets *)
}.

(** [addEventListener] does nothing for a listener that is registered
    already; [removeEventListener] removes the one that matches. *)
Definition addEventListener (l : Listener) (h : Host) : Host :=
  if in_dec Listener_eq_dec l (listeners h) then h
  else mkHost (listeners h ++ [l]) (pending h) (next h).

Definition removeEventListener (l : Listener) (h : Host) : Host :=
  mkHost (remove Listener_eq_dec l (listeners h)) (pending h) (next h).

Definition requestAnimationFrame (h : Host) : nat * Host :=
  (next h, mkHost (listeners h) (pending h ++ [next h]) (S (next h))).

Definition cancelAnimationFrame (id : nat) (h : Host) : Host :=
  mkHost (listeners h) (remove Nat.eq_dec id (pending h)) (next h).

(** The Bind and Teardown blocks of the three variants, in source order. *)
Definition network_bind : list Listener :=
  [mkListener window "resize" "resize";
   mkListener window "mousemove" "onMouseMove";
   mkListener document "mouseleave" "onMouseLeave";
   mkListener window "touchmove" "onTouchMove";
   mkListener window "touchend" "onTouchEnd"]%string.

Definition network_unbind : list Listener :=
  [mkListener window "resize" "resize";
   mkListener window "mousemove" "onMouseMove";
   mkListener document "mouseleave" "onMouseLeave";
   mkListener window "touchmove" "onTouchMove";
   mkListener window "touchend" "onTouchEnd"]%string.

Definition repulsion_bind : list Listener :=
  [mkListener window "resize" "resize";
   mkListener window "mousemove" "handleMouseMove";
   mkListener window "mouseleave" "handleMouseLeave";
   mkListener window "touchmove" "handleTouchMove";
   mkListener window "touchend" "handleTouchEnd"]%string.

Definition repulsion_unbind : list Listener :=
  [mkListener window "resize" "resize";
   mkListener window "mousemove" "handleMouseMove";
   mkListener window "mouseleave" "handleMouseLeave";
   mkListener window "touchmove" "handleTouchMove";
   mkListener window "touchend" "handleTouchEnd"]%string.

Definition grid_bind : list Listener := network_bind.
Definition grid_unbind : list Listener := network_unbind.

(** The effect.  Without a canvas or a 2D context it returns before it
    binds anything, and there is no cleanup ([None]).  Otherwise it binds,
    and [animate] runs once and requests the next frame: the cleanup
    closes over [raf], the id of the latest request. *)
Definition mount (bind : list Listener) (canvas ctx : bool) (h : Host)
  : Host * option nat :=
  if canvas && ctx then
    let h1 := fold_left (fun g l => addEventListener l g) bind h in
    let '(raf, h2) := requestAnimationFrame h1 in
    (h2, Some raf)
  else (h, None).

(** The host serves the request [raf]: [animate] runs and requests the next
    frame, which becomes [raf]. *)
Definition frame (raf : nat) (h : Host) : Host * nat :=
  let h1 := mkHost (listeners h) (remove Nat.eq_dec raf (pending h)) (next h) in
  let '(raf', h2) := requestAnimationFrame h1 in
  (h2, raf').

Fixpoint frames (k : nat) (raf : nat) (h : Host) : Host * nat :=
  match k with
  | O => (h, raf)
  | S k' => let '(h1, raf1) := frame raf h in frames k' raf1 h1
  end.

(** The cleanup: cancel the latest request, remove the listeners. *)
Definition teardown (unbind : list Listener) (raf : nat) (h : Host) : Host :=
  fold_left (fun g l => removeEventListener l g) unbind
            (cancelAnimationFrame raf h).

(** Mount, [k] frames, cleanup. *)
Definition lifetime (bind unbind : list Listener) (canvas ctx : bool)
           (k : nat) (h : Host) : Host :=
  match mount bind canvas ctx h with
  | (h1, Some raf) =>
      let '(h2, raf2) := frames k raf h1 in teardown unbind raf2 h2
  | (h1, None) => h1
  end.

End Effect.

(** ** Predicates of the further properties *)

Module Pred.

(** The ranges in which the network seeder draws velocity, radius and phase
    (argument: [Network.fixed_part] of a node). *)
Definition seeded (v : R * R * R * R) : Prop :=
  let '(vx, vy, r, phase) := v in
  (- Network.DRIFT_SPEED <= vx < Network.DRIFT_SPEED)
  /\ (- Network.DRIFT_SPEED <= vy < Network.DRIFT_SPEED)
  /\ (Network.NODE_MIN_R <= r < Network.NODE_MAX_R)
  /\ (0 <= phase < 2 * PI).

(** A point of the viewport enlarged by [margin] on every side. *)
Definition in_box (margin : R) (w h : Z) (px py : R) : Prop :=
  (- margin <= px <= IZR w + margin) /\ (- margin <= py <= IZR h + margin).

(** Network: an active pointer is in the viewport enlarged by the wrap
    margin (as every [clientX], [clientY] of the viewport is). *)
Definition pointer_ok (w h : Z) (m : Network.Mouse) : Prop :=
  Network.active m = true -> in_box 20 w h (Network.mx m) (Network.my m).

Definition event_ok (w h : Z) (e : Network.Event) : Prop :=
  match e with
  | Network.MouseMove cx cy => in_box 20 w h cx cy
  | Network.TouchMove ((cx, cy) :: _) => in_box 20 w h cx cy
  | _ => True
  end.

Definition rendered_in (margin : R) (w h : Z) (n : Network.Node) : Prop :=
  in_box margin w h (Network.x n) (Network.y n).

(** The ranges in which the repulsion seeder draws (argument:
    [Repulsion.fixed_part] of a particle). *)
Definition seeded_particle (v : R * R * R * string * R) : Prop :=
  let '(vx, vy, radius, color, alpha) := v in
  (- Repulsion.DRIFT_SPEED <= vx < Repulsion.DRIFT_SPEED)
  /\ (- Repulsion.DRIFT_SPEED <= vy < Repulsion.DRIFT_SPEED)
  /\ (1 <= radius < 3.5)
  /\ In color Repulsion.COLORS
  /\ (0.2 <= alpha < 0.8).

Definition particle_in (margin : R) (w h : Z) (p : Repulsion.Particle)
  : Prop :=
  in_box margin w h (Repulsion.x p) (Repulsion.y p).



(** What a grid frame may draw: brand-coloured strokes, dots, halos and the
    cursor hub, each with its range of opacity and size. *)
Definition grid_cmd_ok (c : Cmd) : Prop :=
  match c with
  | ClearRect _ _ => True
  | Stroke _ _ _ _ col al width =>
      col = Grid.BRAND /\ 0 < al <= 0.5 /\ 0.8 < width <= 1.6
  | FillArc _ _ rad col al =>
      col = Grid.BRAND /\ 2 < rad <= 3.5 /\ 0 < al <= 0.7
  | FillGradient _ _ rad col al =>
      col = Grid.BRAND
      /\ (rad = 66 /\ al = 0.06 \/ 9.8 < rad <= 14 /\ 0.0252 < al <= 0.28)
  end.

End Pred.

(** ** Sample states used in the worked cases below *)

Module Sample.

(** A node as the seeder makes it, drifting to the right. *)
Definition drifting : Network.Node :=
  Network.mkNode 100 100 100 100 0.1 0 1 0.

(** A node whose home position sits on the right margin of a 1920 wide
    viewport. *)
Definition at_margin : Network.Node :=
  Network.mkNode 1939.5 500 1940 500 0.1 0 1 0.

(** Two resting nodes 90 apart. *)
Definition node_a : Network.Node := Network.mkNode 0 0 0 0 0 0 1 0.
Definition node_b : Network.Node := Network.mkNode 90 0 90 0 0 0 1 0.

(** The grid after the pointer moved to (500, 500) and left at once. *)
Definition left_grid : Grid.State :=
  Grid.handle Grid.MouseLeave
    (Grid.handle (Grid.MouseMove 500 500) Grid.state0).

(** The grid while the pointer is tracked. *)
Definition tracking_grid : Grid.State :=
  Grid.mkState (Grid.mkPoint 500 500) (Grid.mkPoint 480 480) true 1000 1000.

End Sample.

(** * Properties *)

(** ** Comparisons, square roots and distances *)

Lemma ltb_true (a b : R) : JS.ltb a b = true <-> a < b.
Proof.
  unfold JS.ltb; destruct (Rlt_dec a b); split; intros; try easy; lra.
Qed.

Lemma ltb_false (a b : R) : JS.ltb a b = false <-> b <= a.
Proof.
  unfold JS.ltb; destruct (Rlt_dec a b); split; intros; try easy; lra.
Qed.

Lemma gtb_true (a b : R) : JS.gtb a b = true <-> b < a.
Proof. apply ltb_true. Qed.

Lemma gtb_false (a b : R) : JS.gtb a b = false <-> a <= b.
Proof. apply ltb_false. Qed.

Ltac js_cases :=
  repeat match goal with
  | |- context [JS.ltb ?a ?b] =>
      let E := fresh "E" in
      destruct (JS.ltb a b) eqn:E;
      [apply ltb_true in E | apply ltb_false in E]
  | |- context [JS.gtb ?a ?b] =>
      let E := fresh "E" in
      destruct (JS.gtb a b) eqn:E;
      [apply gtb_true in E | apply gtb_false in E]
  end.

Lemma div_some (a b : R) : b <> 0 -> JS.div a b = Some (a / b).
Proof. intros Hb; unfold JS.div; destruct (Req_dec_T b 0); easy. Qed.

Lemma div_none (a : R) : JS.div a 0 = None.
Proof. unfold JS.div; destruct (Req_dec_T 0 0); easy. Qed.

(** ** Wrap-around of the home position *)

Section Wrap.

Variables (dim : Z) (c : R).
Hypothesis dim_nonneg : (0 <= dim)%Z.

Let dim_R : 0 <= IZR dim := IZR_le 0 dim dim_nonneg.

Lemma network_wrap_range : -20 <= Network.wrap c dim <= IZR dim + 20.
Proof. unfold Network.wrap; js_cases; lra. Qed.

Lemma network_wrap_high : IZR dim + 20 < c -> Network.wrap c dim = -20.
Proof. intros Hc; unfold Network.wrap; js_cases; lra. Qed.

Lemma network_wrap_low : c < -20 -> Network.wrap c dim = IZR dim + 20.
Proof. intros Hc; unfold Network.wrap; js_cases; lra. Qed.

Lemma network_wrap_inside :
  -20 <= c <= IZR dim + 20 -> Network.wrap c dim = c.
Proof. intros Hc; unfold Network.wrap; js_cases; lra. Qed.

Lemma repulsion_wrap_range : -10 <= Repulsion.wrap c dim <= IZR dim + 10.
Proof. unfold Repulsion.wrap; js_cases; lra. Qed.

Lemma repulsion_wrap_high : IZR dim + 10 < c -> Repulsion.wrap c dim = -10.
Proof. intros Hc; unfold Repulsion.wrap; js_cases; lra. Qed.

Lemma repulsion_wrap_low : c < -10 -> Repulsion.wrap c dim = IZR dim + 10.
Proof. intros Hc; unfold Repulsion.wrap; js_cases; lra. Qed.

Lemma repulsion_wrap_inside :
  -10 <= c <= IZR dim + 10 -> Repulsion.wrap c dim = c.
Proof. intros Hc; unfold Repulsion.wrap; js_cases; lra. Qed.

End Wrap.

(** ** Euclidean distance *)

Lemma sum_squares_nonneg (u v : R) : 0 <= u * u + v * v.
Proof. nra. Qed.

Lemma network_dist_euclid (ax ay bx by_ : R) :
  Network.dist ax ay bx by_ = euclid ax ay bx by_.
Proof. reflexivity. Qed.

Lemma euclid_nonneg (ax ay bx by_ : R) : 0 <= euclid ax ay bx by_.
Proof. apply sqrt_pos. Qed.

Lemma euclid_sym (ax ay bx by_ : R) :
  euclid ax ay bx by_ = euclid bx by_ ax ay.
Proof. unfold euclid; f_equal; ring. Qed.

Lemma euclid_square (ax ay bx by_ : R) :
  euclid ax ay bx by_ * euclid ax ay bx by_
  = (ax - bx) * (ax - bx) + (ay - by_) * (ay - by_).
Proof. unfold euclid; apply sqrt_sqrt, sum_squares_nonneg. Qed.

Lemma euclid_zero (ax ay bx by_ : R) :
  euclid ax ay bx by_ = 0 <-> ax = bx /\ ay = by_.
Proof.
  split.
  - intros E; pose proof (euclid_square ax ay bx by_) as Hs.
    rewrite E, Rmult_0_l in Hs.
    pose proof (Rle_0_sqr (ax - bx)) as Hx.
    pose proof (Rle_0_sqr (ay - by_)) as Hy.
    unfold Rsqr in Hx, Hy.
    assert (Zx : (ax - bx) * (ax - bx) = 0) by lra.
    assert (Zy : (ay - by_) * (ay - by_) = 0) by lra.
    apply Rmult_integral in Zx; apply Rmult_integral in Zy; lra.
  - intros [-> ->]; unfold euclid.
    replace ((bx - bx) * (bx - bx) + (by_ - by_) * (by_ - by_)) with 0 by ring.
    apply sqrt_0.
Qed.

Lemma euclid_ge_dx (ax ay bx by_ : R) : Rabs (ax - bx) <= euclid ax ay bx by_.
Proof.
  rewrite <- sqrt_Rsqr_abs; unfold euclid, Rsqr.
  apply sqrt_le_1_alt.
  pose proof (Rle_0_sqr (ay - by_)) as Hy; unfold Rsqr in Hy; lra.
Qed.

(** A vector scaled by [s >= 0] has its length scaled by [s]. *)
Lemma sqrt_scaled (s u v : R) :
  0 <= s ->
  sqrt ((s * u) * (s * u) + (s * v) * (s * v)) = s * sqrt (u * u + v * v).
Proof.
  intros Hs.
  replace ((s * u) * (s * u) + (s * v) * (s * v))
    with ((s * s) * (u * u + v * v)) by ring.
  rewrite sqrt_mult by (try apply sum_squares_nonneg; nra).
  now rewrite sqrt_square.
Qed.

(** The point a fraction [s] of the way from [(ax, ay)] to [(bx, by_)]. *)
Lemma euclid_from_start (ax ay bx by_ s : R) :
  0 <= s ->
  euclid (ax + (bx - ax) * s) (ay + (by_ - ay) * s) ax ay
  = s * euclid bx by_ ax ay.
Proof.
  intros Hs; unfold euclid.
  rewrite <- sqrt_scaled by assumption; f_equal; ring.
Qed.

Lemma euclid_to_end (ax ay bx by_ s : R) :
  s <= 1 ->
  euclid (ax + (bx - ax) * s) (ay + (by_ - ay) * s) bx by_
  = (1 - s) * euclid ax ay bx by_.
Proof.
  intros Hs; unfold euclid.
  rewrite <- sqrt_scaled by lra; f_equal; ring.
Qed.

Lemma euclid_on_axis (a b c : R) : a <= b -> euclid a c b c = b - a.
Proof.
  intros Hab; unfold euclid.
  replace ((a - b) * (a - b) + (c - c) * (c - c))
    with ((b - a) * (b - a)) by ring.
  apply sqrt_square; lra.
Qed.

(** ** The target position *)

Lemma network_target_inactive (m : Network.Mouse) (a b : R) :
  Network.active m = false -> Network.target m a b = (a, b).
Proof. intros E; unfold Network.target; now rewrite E. Qed.

Lemma network_target_far (m : Network.Mouse) (a b : R) :
  Network.MOUSE_RADIUS <= euclid a b (Network.mx m) (Network.my m) ->
  Network.target m a b = (a, b).
Proof.
  intros Hd; unfold Network.target; rewrite network_dist_euclid.
  destruct (Network.active m); [|reflexivity].
  apply ltb_false in Hd; now rewrite Hd.
Qed.

Lemma network_target_at (m : Network.Mouse) (a b : R) :
  euclid a b (Network.mx m) (Network.my m) = 0 ->
  Network.target m a b = (a, b).
Proof.
  intros Hd; unfold Network.target; rewrite network_dist_euclid, Hd.
  destruct (Network.active m); [|reflexivity].
  assert (E : JS.gtb 0 0 = false) by (apply gtb_false; lra).
  now rewrite E, andb_false_r.
Qed.

Lemma network_target_near (m : Network.Mouse) (a b : R) :
  let d := euclid a b (Network.mx m) (Network.my m) in
  Network.active m = true -> 0 < d < Network.MOUSE_RADIUS ->
  Network.target m a b
  = (a + (Network.mx m - a) * Network.strength d * 12,
     b + (Network.my m - b) * Network.strength d * 12).
Proof.
  intros d Ha [Hpos Hlt]; unfold Network.target.
  rewrite Ha, network_dist_euclid; fold d.
  apply ltb_true in Hlt; apply gtb_true in Hpos.
  now rewrite Hlt, Hpos.
Qed.

Lemma repulsion_target_off (m : Repulsion.Mouse) (a b : R) :
  let d := euclid a b (Repulsion.mx m) (Repulsion.my m) in
  d = 0 \/ Repulsion.MOUSE_RADIUS <= d ->
  Repulsion.target m a b = Some (a, b).
Proof.
  intros d Hd; unfold Repulsion.target, JS.Math_sqrt.
  change (sqrt _) with d.
  destruct Hd as [Hd | Hd].
  - assert (E : JS.gtb d 0 = false) by (apply gtb_false; lra).
    now rewrite E, andb_false_r.
  - apply ltb_false in Hd; now rewrite Hd.
Qed.

Lemma repulsion_target_near (m : Repulsion.Mouse) (a b : R) :
  let d := euclid a b (Repulsion.mx m) (Repulsion.my m) in
  0 < d < Repulsion.MOUSE_RADIUS ->
  Repulsion.target m a b
  = Some (a + (a - Repulsion.mx m) / d * Repulsion.force d
              * Repulsion.MOUSE_RADIUS * 0.1,
          b + (b - Repulsion.my m) / d * Repulsion.force d
              * Repulsion.MOUSE_RADIUS * 0.1).
Proof.
  intros d [Hpos Hlt]; unfold Repulsion.target, JS.Math_sqrt.
  change (sqrt _) with d.
  pose proof Hpos as Hgt; pose proof Hlt as Hl.
  apply ltb_true in Hl; apply gtb_true in Hgt.
  rewrite Hl, Hgt; cbn [andb].
  rewrite !div_some by lra; reflexivity.
Qed.

(** The target is always a pair of numbers: no division by zero happens. *)
Lemma repulsion_target_total (m : Repulsion.Mouse) (a b : R) :
  exists tg, Repulsion.target m a b = Some tg.
Proof.
  pose proof (euclid_nonneg a b (Repulsion.mx m) (Repulsion.my m)) as Hn.
  destruct (Rlt_dec (euclid a b (Repulsion.mx m) (Repulsion.my m))
                    Repulsion.MOUSE_RADIUS) as [Hlt | Hge].
  - destruct (Req_dec_T (euclid a b (Repulsion.mx m) (Repulsion.my m)) 0)
      as [Hz | Hnz].
    + eexists; apply repulsion_target_off; now left.
    + eexists; apply repulsion_target_near; lra.
  - eexists; apply repulsion_target_off; right; lra.
Qed.

Lemma repulsion_update_total (w h : Z) (m : Repulsion.Mouse)
      (p : Repulsion.Particle) :
  exists tg,
    Repulsion.target m (Repulsion.wrap (Repulsion.baseX p + Repulsion.vx p) w)
                       (Repulsion.wrap (Repulsion.baseY p + Repulsion.vy p) h)
    = Some tg
    /\ Repulsion.update w h m p
       = Some (Repulsion.mkParticle
                 (Repulsion.lerp (Repulsion.x p) (fst tg) Repulsion.LERP_SPEED)
                 (Repulsion.lerp (Repulsion.y p) (snd tg) Repulsion.LERP_SPEED)
                 (Repulsion.wrap (Repulsion.baseX p + Repulsion.vx p) w)
                 (Repulsion.wrap (Repulsion.baseY p + Repulsion.vy p) h)
                 (Repulsion.vx p) (Repulsion.vy p) (Repulsion.radius p)
                 (Repulsion.color p) (Repulsion.alpha p)).
Proof.
  destruct (repulsion_target_total m
              (Repulsion.wrap (Repulsion.baseX p + Repulsion.vx p) w)
              (Repulsion.wrap (Repulsion.baseY p + Repulsion.vy p) h))
    as [tg Htg].
  exists tg; split; [assumption|].
  unfold Repulsion.update; now rewrite Htg.
Qed.

Lemma repulsion_loop_total (w h : Z) (m : Repulsion.Mouse)
      (ps : list Repulsion.Particle) :
  exists ps',
    Repulsion.animate_loop w h m ps = Some (ps', map Repulsion.draw ps')
    /\ Forall2 (fun p p' => Repulsion.update w h m p = Some p') ps ps'.
Proof.
  induction ps as [|p rest [ps' [IH F]]]; cbn [Repulsion.animate_loop].
  - exists []; split; [reflexivity | constructor].
  - destruct (repulsion_update_total w h m p) as [tg [_ Hu]].
    rewrite Hu, IH; cbn [JS.bind fst snd].
    eexists (_ :: ps'); split; [reflexivity|].
    constructor; [exact Hu | exact F].
Qed.

Lemma repulsion_animate_total (f : Repulsion.Field) :
  exists ps',
    Repulsion.animate f
    = Some (Repulsion.mkField ps' (Repulsion.mouse f)
              (Repulsion.width f) (Repulsion.height f),
            ClearRect (IZR (Repulsion.width f)) (IZR (Repulsion.height f))
            :: map Repulsion.draw ps')
    /\ Forall2 (fun p p' =>
                  Repulsion.update (Repulsion.width f) (Repulsion.height f)
                                   (Repulsion.mouse f) p = Some p')
               (Repulsion.particles f) ps'.
Proof.
  destruct (repulsion_loop_total (Repulsion.width f) (Repulsion.height f)
              (Repulsion.mouse f) (Repulsion.particles f)) as [ps' [E F]].
  exists ps'; split; [|exact F].
  unfold Repulsion.animate; now rewrite E.
Qed.

(** ** The integrator keeps home positions inside the wrap margin *)

Lemma network_update_home (w h : Z) (m : Network.Mouse) (n : Network.Node) :
  Network.ox (Network.update w h m n)
  = Network.wrap (Network.ox n + Network.vx n) w
  /\ Network.oy (Network.update w h m n)
     = Network.wrap (Network.oy n + Network.vy n) h.
Proof.
  unfold Network.update.
  destruct (Network.target m _ _); split; reflexivity.
Qed.

Lemma repulsion_update_home (w h : Z) (m : Repulsion.Mouse)
      (p p' : Repulsion.Particle) :
  Repulsion.update w h m p = Some p' ->
  Repulsion.baseX p' = Repulsion.wrap (Repulsion.baseX p + Repulsion.vx p) w
  /\ Repulsion.baseY p' = Repulsion.wrap (Repulsion.baseY p + Repulsion.vy p) h.
Proof.
  destruct (repulsion_update_total w h m p) as [tg [_ E]].
  rewrite E; intros [= <-]; split; reflexivity.
Qed.

Lemma network_update_inv (w h : Z) (m : Network.Mouse) (n : Network.Node) :
  (0 <= w)%Z -> (0 <= h)%Z -> Network.home_inv w h (Network.update w h m n).
Proof.
  intros Hw Hh; destruct (network_update_home w h m n) as [Ex Ey].
  unfold Network.home_inv; rewrite Ex, Ey.
  split; now apply network_wrap_range.
Qed.

Lemma repulsion_update_inv (w h : Z) (m : Repulsion.Mouse)
      (p p' : Repulsion.Particle) :
  (0 <= w)%Z -> (0 <= h)%Z ->
  Repulsion.update w h m p = Some p' -> Repulsion.home_inv w h p'.
Proof.
  intros Hw Hh E; destruct (repulsion_update_home w h m p p' E) as [Ex Ey].
  unfold Repulsion.home_inv; rewrite Ex, Ey.
  split; now apply repulsion_wrap_range.
Qed.

Lemma network_animate_inv (f : Network.Field) :
  (0 <= Network.W f)%Z -> (0 <= Network.H f)%Z ->
  Forall (Network.home_inv (Network.W f) (Network.H f))
         (Network.nodes (fst (Network.animate f))).
Proof.
  intros Hw Hh; cbn [Network.animate fst Network.nodes].
  apply Forall_forall; intros n' Hin.
  apply in_map_iff in Hin; destruct Hin as [n [<- _]].
  now apply network_update_inv.
Qed.

Lemma repulsion_animate_inv (f : Repulsion.Field) :
  (0 <= Repulsion.width f)%Z -> (0 <= Repulsion.height f)%Z ->
  exists out, Repulsion.animate f = Some out
    /\ Repulsion.width (fst out) = Repulsion.width f
    /\ Repulsion.height (fst out) = Repulsion.height f
    /\ Forall (Repulsion.home_inv (Repulsion.width f) (Repulsion.height f))
              (Repulsion.particles (fst out)).
Proof.
  intros Hw Hh; destruct (repulsion_animate_total f) as [ps' [E F]].
  eexists; split; [exact E|]; cbn [fst Repulsion.particles
                                    Repulsion.width Repulsion.height].
  split; [reflexivity | split; [reflexivity|]].
  clear E; induction F as [|p p' ps ps' Hu _ IH]; constructor.
  - now apply (repulsion_update_inv _ _ (Repulsion.mouse f) p).
  - exact IH.
Qed.

Lemma network_events_dims (es : list Network.Event) (f : Network.Field) :
  Network.W (fold_left (fun g e => Network.handle e g) es f) = Network.W f
  /\ Network.H (fold_left (fun g e => Network.handle e g) es f) = Network.H f.
Proof.
  revert f; induction es as [|e es IH]; intros f; cbn [fold_left].
  - split; reflexivity.
  - destruct (IH (Network.handle e f)) as [-> ->].
    now destruct e as [cx cy| |[|[cx cy] ts]|].
Qed.

Lemma repulsion_events_dims (es : list Repulsion.Event) (f : Repulsion.Field) :
  Repulsion.width (fold_left (fun g e => Repulsion.handle e g) es f)
  = Repulsion.width f
  /\ Repulsion.height (fold_left (fun g e => Repulsion.handle e g) es f)
     = Repulsion.height f.
Proof.
  revert f; induction es as [|e es IH]; intros f; cbn [fold_left].
  - split; reflexivity.
  - destruct (IH (Repulsion.handle e f)) as [-> ->].
    now destruct e as [cx cy| |[|[cx cy] ts]|].
Qed.

(** After at least one frame, whatever pointer events arrive in between. *)
Lemma network_run_inv (frames : list (list Network.Event))
      (f : Network.Field) :
  frames <> [] -> (0 <= Network.W f)%Z -> (0 <= Network.H f)%Z ->
  Forall (Network.home_inv (Network.W f) (Network.H f))
         (Network.nodes (Network.run frames f)).
Proof.
  revert f; induction frames as [|es frames IH]; intros f Hne Hw Hh;
    [congruence|]; cbn [Network.run].
  destruct (network_events_dims es f) as [Ew Eh].
  set (g := fold_left (fun g e => Network.handle e g) es f) in *.
  assert (Dw : Network.W (fst (Network.animate g)) = Network.W f)
    by exact Ew.
  assert (Dh : Network.H (fst (Network.animate g)) = Network.H f)
    by exact Eh.
  destruct frames as [|es' frames].
  - cbn [Network.run]; rewrite <- Ew, <- Eh.
    apply network_animate_inv; lia.
  - rewrite <- Dw, <- Dh; apply IH; [discriminate | lia | lia].
Qed.

Lemma repulsion_run_inv (frames : list (list Repulsion.Event))
      (f : Repulsion.Field) :
  frames <> [] ->
  (0 <= Repulsion.width f)%Z -> (0 <= Repulsion.height f)%Z ->
  exists f', Repulsion.run frames f = Some f'
    /\ Forall (Repulsion.home_inv (Repulsion.width f) (Repulsion.height f))
              (Repulsion.particles f').
Proof.
  revert f; induction frames as [|es frames IH]; intros f Hne Hw Hh;
    [congruence|]; cbn [Repulsion.run].
  destruct (repulsion_events_dims es f) as [Ew Eh].
  set (g := fold_left (fun g e => Repulsion.handle e g) es f) in *.
  destruct (repulsion_animate_inv g) as [out [E [Dw [Dh F]]]]; [lia | lia |].
  rewrite E; cbn [JS.bind].
  rewrite Ew, Eh in *.
  destruct frames as [|es' frames].
  - exists (fst out); split; [reflexivity | exact F].
  - rewrite <- Dw, <- Dh; apply IH; [discriminate | lia | lia].
Qed.

(** C5. After the integrator step of any frame, in a viewport of non-negative
    width and height, every coordinate of every home position lies in
    [-margin, dimension + margin] (margin 20 in the network, 10 in the
    repulsion field).  A coordinate that the drift increment carried above
    the high bound is exactly [-margin] afterwards, one carried below the
    low bound is exactly [dimension + margin], one left inside is the
    incremented value; what happens on an axis depends on that axis only.
    The bounds hold after one frame and after any run of frames with
    pointer events in between. *)
Theorem home_position_wraps_within_margin (w h : Z) :
  (0 <= w)%Z -> (0 <= h)%Z ->
  (forall (m : Network.Mouse) (n : Network.Node),
     let n' := Network.update w h m n in
     let cx := Network.ox n + Network.vx n in
     let cy := Network.oy n + Network.vy n in
     Network.home_inv w h n'
     /\ (IZR w + 20 < cx -> Network.ox n' = -20)
     /\ (cx < -20 -> Network.ox n' = IZR w + 20)
     /\ (-20 <= cx <= IZR w + 20 -> Network.ox n' = cx)
     /\ (IZR h + 20 < cy -> Network.oy n' = -20)
     /\ (cy < -20 -> Network.oy n' = IZR h + 20)
     /\ (-20 <= cy <= IZR h + 20 -> Network.oy n' = cy))
  /\ (forall (m : Repulsion.Mouse) (p : Repulsion.Particle),
        exists p', Repulsion.update w h m p = Some p' /\
        let cx := Repulsion.baseX p + Repulsion.vx p in
        let cy := Repulsion.baseY p + Repulsion.vy p in
        Repulsion.home_inv w h p'
        /\ (IZR w + 10 < cx -> Repulsion.baseX p' = -10)
        /\ (cx < -10 -> Repulsion.baseX p' = IZR w + 10)
        /\ (-10 <= cx <= IZR w + 10 -> Repulsion.baseX p' = cx)
        /\ (IZR h + 10 < cy -> Repulsion.baseY p' = -10)
        /\ (cy < -10 -> Repulsion.baseY p' = IZR h + 10)
        /\ (-10 <= cy <= IZR h + 10 -> Repulsion.baseY p' = cy))
  /\ (forall f : Network.Field,
        Network.W f = w -> Network.H f = h ->
        Forall (Network.home_inv w h) (Network.nodes (fst (Network.animate f))))
  /\ (forall f : Repulsion.Field,
        Repulsion.width f = w -> Repulsion.height f = h ->
        exists out, Repulsion.animate f = Some out
          /\ Forall (Repulsion.home_inv w h) (Repulsion.particles (fst out)))
  /\ (forall (frames : list (list Network.Event)) (f : Network.Field),
        frames <> [] -> Network.W f = w -> Network.H f = h ->
        Forall (Network.home_inv w h) (Network.nodes (Network.run frames f)))
  /\ (forall (frames : list (list Repulsion.Event)) (f : Repulsion.Field),
        frames <> [] -> Repulsion.width f = w -> Repulsion.height f = h ->
        exists f', Repulsion.run frames f = Some f'
          /\ Forall (Repulsion.home_inv w h) (Repulsion.particles f')).
Proof.
  intros Hw Hh.
  split; [|split; [|split; [|split; [|split]]]].
  - intros m n n' cx cy.
    destruct (network_update_home w h m n) as [Ex Ey].
    split; [now apply network_update_inv|].
    subst n' cx cy; rewrite Ex, Ey.
    repeat split; intros Hc.
    + now apply network_wrap_high.
    + now apply network_wrap_low.
    + now apply network_wrap_inside.
    + now apply network_wrap_high.
    + now apply network_wrap_low.
    + now apply network_wrap_inside.
  - intros m p.
    destruct (repulsion_update_total w h m p) as [tg [_ E]].
    eexists; split; [exact E|].
    destruct (repulsion_update_home w h m p _ E) as [Ex Ey].
    intros cx cy; split; [now apply (repulsion_update_inv w h m p)|].
    subst cx cy; rewrite Ex, Ey.
    repeat split; intros Hc.
    + now apply repulsion_wrap_high.
    + now apply repulsion_wrap_low.
    + now apply repulsion_wrap_inside.
    + now apply repulsion_wrap_high.
    + now apply repulsion_wrap_low.
    + now apply repulsion_wrap_inside.
  - intros f <- <-; now apply network_animate_inv.
  - intros f <- <-.
    destruct (repulsion_animate_inv f Hw Hh) as [out [E [_ [_ F]]]].
    now exists out.
  - intros frames f Hne <- <-; now apply network_run_inv.
  - intros frames f Hne <- <-; now apply repulsion_run_inv.
Qed.

Lemma home_position_wraps_within_margin_witness :
  (0 <= 1920)%Z /\ (0 <= 1080)%Z
  /\ Network.ox (Network.update 1920 1080 Network.mouse0
                   (Network.mkNode 0 0 1940 (-20) 0.1 (-0.1) 1 0)) = -20.
Proof.
  assert (Hw : (0 <= 1920)%Z) by lia.
  assert (Hh : (0 <= 1080)%Z) by lia.
  split; [exact Hw | split; [exact Hh|]].
  apply (proj1 (home_position_wraps_within_margin 1920 1080 Hw Hh)
           Network.mouse0 (Network.mkNode 0 0 1940 (-20) 0.1 (-0.1) 1 0)).
  cbn [Network.ox Network.vx]; lra.
Defined.

(** ** An inactive pointer leaves the target at the home position *)

Lemma sentinel_is_far (a b : R) :
  -20 <= a -> 9979 <= euclid a b (-9999) (-9999).
Proof.
  intros Ha; pose proof (euclid_ge_dx a b (-9999) (-9999)) as Hd.
  rewrite Rabs_pos_eq in Hd by lra; lra.
Qed.

Lemma network_update_render (w h : Z) (m : Network.Mouse) (n : Network.Node) :
  let n' := Network.update w h m n in
  let tg := Network.target m (Network.ox n') (Network.oy n') in
  Network.x n' = Network.lerp (Network.x n) (fst tg) (Network.LERP_RETURN + 0.04)
  /\ Network.y n'
     = Network.lerp (Network.y n) (snd tg) (Network.LERP_RETURN + 0.04).
Proof.
  intros n' tg; subst n' tg.
  destruct (network_update_home w h m n) as [-> ->].
  unfold Network.update.
  destruct (Network.target m _ _); split; reflexivity.
Qed.

Lemma network_update_inactive (w h : Z) (m : Network.Mouse)
      (n : Network.Node) :
  Network.active m = false ->
  let n' := Network.update w h m n in
  Network.x n' = Network.lerp (Network.x n) (Network.ox n')
                   (Network.LERP_RETURN + 0.04)
  /\ Network.y n' = Network.lerp (Network.y n) (Network.oy n')
                      (Network.LERP_RETURN + 0.04).
Proof.
  intros Ha n'.
  destruct (network_update_render w h m n) as [Ex Ey].
  fold n' in Ex, Ey; rewrite (network_target_inactive m _ _ Ha) in Ex, Ey.
  now split.
Qed.

Lemma repulsion_target_offscreen (a b : R) :
  -10 <= a -> Repulsion.target Repulsion.offscreen a b = Some (a, b).
Proof.
  intros Ha; apply repulsion_target_off; right.
  cbn [Repulsion.offscreen Repulsion.mx Repulsion.my].
  pose proof (sentinel_is_far a b); unfold Repulsion.MOUSE_RADIUS; lra.
Qed.

Lemma repulsion_update_offscreen (w h : Z) (p : Repulsion.Particle) :
  (0 <= w)%Z -> (0 <= h)%Z ->
  exists p', Repulsion.update w h Repulsion.offscreen p = Some p'
    /\ Repulsion.baseX p' = Repulsion.wrap (Repulsion.baseX p + Repulsion.vx p) w
    /\ Repulsion.baseY p' = Repulsion.wrap (Repulsion.baseY p + Repulsion.vy p) h
    /\ Repulsion.x p' = Repulsion.lerp (Repulsion.x p) (Repulsion.baseX p')
                          Repulsion.LERP_SPEED
    /\ Repulsion.y p' = Repulsion.lerp (Repulsion.y p) (Repulsion.baseY p')
                          Repulsion.LERP_SPEED.
Proof.
  intros Hw Hh.
  destruct (repulsion_update_total w h Repulsion.offscreen p) as [tg [Et Eu]].
  rewrite repulsion_target_offscreen in Et
    by (apply repulsion_wrap_range; assumption).
  injection Et as <-.
  eexists; split; [exact Eu|]; repeat split; reflexivity.
Qed.

(** C6. With the pointer inactive the target of every particle is its home
    position: in the network because the activity flag is false, in the
    repulsion field because the off-screen position (-9999, -9999) is
    farther than the repulsion radius from any home position that satisfies
    the wrap invariant.  The rendered position then moves toward the home
    position only.  The off-screen position is at least 9979 away from such
    a home position, beyond the radii 280, 150 and 220 of the variants.  A
    pointer that leaves, or a touch that ends, makes the pointer inactive
    in this sense. *)
Theorem inactive_pointer_target_is_home :
  (forall (m : Network.Mouse) (a b : R),
     Network.active m = false -> Network.target m a b = (a, b))
  /\ (forall (w h : Z) (m : Network.Mouse) (n : Network.Node),
        Network.active m = false ->
        let n' := Network.update w h m n in
        Network.x n' = Network.lerp (Network.x n) (Network.ox n')
                         (Network.LERP_RETURN + 0.04)
        /\ Network.y n' = Network.lerp (Network.y n) (Network.oy n')
                            (Network.LERP_RETURN + 0.04))
  /\ (forall (w h : Z) (p : Repulsion.Particle),
        Repulsion.home_inv w h p ->
        Repulsion.target Repulsion.offscreen
          (Repulsion.baseX p) (Repulsion.baseY p)
        = Some (Repulsion.baseX p, Repulsion.baseY p))
  /\ (forall (w h : Z) (p : Repulsion.Particle),
        (0 <= w)%Z -> (0 <= h)%Z ->
        exists p', Repulsion.update w h Repulsion.offscreen p = Some p'
          /\ Repulsion.x p' = Repulsion.lerp (Repulsion.x p) (Repulsion.baseX p')
                                Repulsion.LERP_SPEED
          /\ Repulsion.y p' = Repulsion.lerp (Repulsion.y p) (Repulsion.baseY p')
                                Repulsion.LERP_SPEED)
  /\ (forall (w h : Z) (a b : R),
        (-20 <= a <= IZR w + 20) /\ (-20 <= b <= IZR h + 20)
        \/ (-10 <= a <= IZR w + 10) /\ (-10 <= b <= IZR h + 10) ->
        Network.MOUSE_RADIUS < euclid a b (-9999) (-9999)
        /\ Repulsion.MOUSE_RADIUS < euclid a b (-9999) (-9999)
        /\ Grid.GLOW_RADIUS < euclid a b (-9999) (-9999))
  /\ (forall (f : Network.Field) (e : Network.Event),
        e = Network.MouseLeave \/ e = Network.TouchEnd ->
        Network.active (Network.mouse (Network.handle e f)) = false)
  /\ (forall (f : Repulsion.Field) (e : Repulsion.Event),
        e = Repulsion.MouseLeave \/ e = Repulsion.TouchEnd ->
        Repulsion.mouse (Repulsion.handle e f) = Repulsion.offscreen).
Proof.
  split; [|split; [|split; [|split; [|split; [|split]]]]];
    [| | | | | intros f e [-> | ->]; reflexivity
             | intros f e [-> | ->]; reflexivity].
  - exact network_target_inactive.
  - exact network_update_inactive.
  - intros w h p [[Hx _] _]; now apply repulsion_target_offscreen.
  - intros w h p Hw Hh.
    destruct (repulsion_update_offscreen w h p Hw Hh)
      as [p' [Eu [_ [_ [Ex Ey]]]]].
    exists p'; repeat split; assumption.
  - intros w h a b Hab.
    assert (Ha : -20 <= a) by (destruct Hab as [[? _]|[? _]]; lra).
    pose proof (sentinel_is_far a b Ha).
    unfold Network.MOUSE_RADIUS, Repulsion.MOUSE_RADIUS, Grid.GLOW_RADIUS.
    repeat split; lra.
Qed.

Lemma inactive_pointer_target_is_home_witness :
  Network.active Network.mouse0 = false
  /\ Network.target Network.mouse0 100 200 = (100, 200).
Proof.
  split; [reflexivity|].
  apply (proj1 inactive_pointer_target_is_home Network.mouse0 100 200).
  reflexivity.
Defined.

(** ** The repulsion field never divides by zero *)

Lemma repulsion_run_total (frames : list (list Repulsion.Event))
      (f : Repulsion.Field) :
  exists f', Repulsion.run frames f = Some f'.
Proof.
  revert f; induction frames as [|es frames IH]; intros f;
    cbn [Repulsion.run].
  - now exists f.
  - destruct (repulsion_animate_total
                (fold_left (fun g e => Repulsion.handle e g) es f))
      as [ps' [E _]].
    rewrite E; cbn [JS.bind fst]; apply IH.
Qed.

(** C7. In the repulsion field a pointer exactly on a home position (distance
    zero) fails the guard [dist > 0]: the target is the home position and
    the quotients by the distance are not computed.  Hence the target, the
    update of a particle, a frame and any run of frames with events in
    between always produce numbers; a quotient by zero, which the model
    answers with [None], never occurs. *)
Theorem repulsion_zero_distance_guarded :
  (forall (m : Repulsion.Mouse) (a b : R),
     euclid a b (Repulsion.mx m) (Repulsion.my m) = 0 ->
     Repulsion.target m a b = Some (a, b))
  /\ (forall a : R, JS.div a 0 = None)
  /\ (forall (m : Repulsion.Mouse) (a b : R),
        exists tg, Repulsion.target m a b = Some tg)
  /\ (forall (w h : Z) (m : Repulsion.Mouse) (p : Repulsion.Particle),
        exists p', Repulsion.update w h m p = Some p')
  /\ (forall f : Repulsion.Field, exists out, Repulsion.animate f = Some out)
  /\ (forall (frames : list (list Repulsion.Event)) (f : Repulsion.Field),
        exists f', Repulsion.run frames f = Some f').
Proof.
  split; [|split; [|split; [|split; [|split]]]].
  - intros m a b Hd; apply repulsion_target_off; now left.
  - exact div_none.
  - exact repulsion_target_total.
  - intros w h m p.
    destruct (repulsion_update_total w h m p) as [tg [_ E]].
    eexists; exact E.
  - intros f; destruct (repulsion_animate_total f) as [ps' [E _]].
    eexists; exact E.
  - exact repulsion_run_total.
Qed.

Lemma repulsion_zero_distance_guarded_witness :
  euclid 300 400 300 400 = 0
  /\ Repulsion.target (Repulsion.mkMouse 300 400) 300 400 = Some (300, 400).
Proof.
  assert (Hd : euclid 300 400 300 400 = 0)
    by (apply euclid_zero; split; reflexivity).
  split; [exact Hd|].
  apply (proj1 repulsion_zero_distance_guarded
           (Repulsion.mkMouse 300 400) 300 400); exact Hd.
Defined.

(** ** Attraction: the target stays between home position and pointer *)

Lemma network_strength_range (d : R) :
  0 < d < Network.MOUSE_RADIUS ->
  0 < Network.strength d * 12 < 0.144.
Proof.
  unfold Network.strength, Network.MOUSE_RADIUS, Network.MOUSE_ATTRACT.
  intros [Hpos Hlt]; lra.
Qed.

(** The target of a pulled node, and its distances to the home position
    and to the pointer. *)
Lemma network_target_fraction (m : Network.Mouse) (a b : R) :
  let d := euclid a b (Network.mx m) (Network.my m) in
  let s := Network.strength d * 12 in
  let tg := Network.target m a b in
  Network.active m = true ->
  0 < d < Network.MOUSE_RADIUS ->
  tg = (a + (Network.mx m - a) * s, b + (Network.my m - b) * s)
  /\ euclid (fst tg) (snd tg) a b = s * d
  /\ euclid (fst tg) (snd tg) (Network.mx m) (Network.my m) = (1 - s) * d.
Proof.
  intros d s tg Ha Hd.
  pose proof (network_strength_range d Hd) as Hs; fold s in Hs.
  assert (Et : tg = (a + (Network.mx m - a) * s, b + (Network.my m - b) * s)).
  { subst tg; rewrite (network_target_near m a b Ha Hd); fold d.
    subst s; f_equal; ring. }
  split; [exact Et|]; rewrite Et; cbn [fst snd]; split.
  - rewrite euclid_from_start by lra.
    now rewrite (euclid_sym (Network.mx m)).
  - now rewrite euclid_to_end by lra.
Qed.

(** C10. In the network, when the pointer is active at a distance [d] with
    [0 < d < MOUSE_RADIUS] from a home position, the target is the point a
    fraction [s = (1 - d / MOUSE_RADIUS) * MOUSE_ATTRACT * 12] of the way
    from the home position to the pointer, with [0 < s < 0.144 < 1]: it
    lies strictly between the two on their segment, at distance [s * d]
    from the home position (at most [0.144 * d]) and [(1 - s) * d] from the
    pointer. *)
Theorem attraction_target_between_home_and_pointer
        (m : Network.Mouse) (a b : R) :
  let d := euclid a b (Network.mx m) (Network.my m) in
  let s := (1 - d / Network.MOUSE_RADIUS) * Network.MOUSE_ATTRACT * 12 in
  let tg := Network.target m a b in
  Network.active m = true ->
  0 < d < Network.MOUSE_RADIUS ->
  0 < s < 0.144
  /\ tg = (a + (Network.mx m - a) * s, b + (Network.my m - b) * s)
  /\ euclid (fst tg) (snd tg) a b = s * d
  /\ euclid (fst tg) (snd tg) (Network.mx m) (Network.my m) = (1 - s) * d
  /\ euclid (fst tg) (snd tg) a b <= 0.144 * d
  /\ 0 < euclid (fst tg) (snd tg) a b < d
  /\ 0 < euclid (fst tg) (snd tg) (Network.mx m) (Network.my m) < d.
Proof.
  intros d s tg Ha Hd.
  pose proof (network_strength_range d Hd) as Hs.
  destruct (network_target_fraction m a b Ha Hd) as [Et [E1 E2]].
  fold d tg in Et, E1, E2.
  change (Network.strength d * 12) with s in Hs, Et, E1, E2.
  rewrite E1, E2.
  repeat split; try assumption; try tauto; nra.
Qed.

Lemma attraction_target_between_home_and_pointer_witness :
  Network.active (Network.mkMouse 140 0 true) = true
  /\ 0 < euclid 0 0 140 0 < Network.MOUSE_RADIUS
  /\ euclid (fst (Network.target (Network.mkMouse 140 0 true) 0 0))
            (snd (Network.target (Network.mkMouse 140 0 true) 0 0)) 0 0
     <= 0.144 * euclid 0 0 140 0.
Proof.
  assert (Hd : 0 < euclid 0 0 140 0 < Network.MOUSE_RADIUS).
  { rewrite euclid_on_axis by lra; unfold Network.MOUSE_RADIUS; lra. }
  split; [reflexivity | split; [exact Hd|]].
  apply (attraction_target_between_home_and_pointer
           (Network.mkMouse 140 0 true) 0 0 eq_refl Hd).
Defined.

(** ** Pointer influence as a function of distance *)

Lemma network_pull_near (m : Network.Mouse) (a b : R) :
  let d := euclid a b (Network.mx m) (Network.my m) in
  Network.active m = true -> 0 < d < Network.MOUSE_RADIUS ->
  Network.pull m a b = d * Network.strength d * 12.
Proof.
  intros d Ha Hd; unfold Network.pull.
  destruct (network_target_fraction m a b Ha Hd) as [_ [E _]].
  rewrite E; fold d; ring.
Qed.

Lemma euclid_self (a b : R) : euclid a b a b = 0.
Proof. apply euclid_zero; split; reflexivity. Qed.

Lemma network_pull_off (m : Network.Mouse) (a b : R) :
  let d := euclid a b (Network.mx m) (Network.my m) in
  Network.active m = false \/ d = 0 \/ Network.MOUSE_RADIUS <= d ->
  Network.target m a b = (a, b) /\ Network.pull m a b = 0.
Proof.
  intros d H.
  assert (E : Network.target m a b = (a, b)).
  { destruct H as [H | [H | H]].
    - now apply network_target_inactive.
    - now apply network_target_at.
    - now apply network_target_far. }
  split; [exact E|].
  unfold Network.pull; rewrite E; apply euclid_self.
Qed.

Lemma repulsion_force_range (d : R) :
  0 < d < Repulsion.MOUSE_RADIUS ->
  0 < Repulsion.force d * Repulsion.MOUSE_RADIUS * 0.1 < 120.
Proof.
  unfold Repulsion.force, Repulsion.MOUSE_RADIUS, Repulsion.REPULSION_STRENGTH.
  intros [Hpos Hlt]; lra.
Qed.

Lemma repulsion_push_near (m : Repulsion.Mouse) (a b : R) :
  let d := euclid a b (Repulsion.mx m) (Repulsion.my m) in
  0 < d < Repulsion.MOUSE_RADIUS ->
  Repulsion.push m a b
  = Some (Repulsion.force d * Repulsion.MOUSE_RADIUS * 0.1).
Proof.
  intros d Hd; unfold Repulsion.push.
  rewrite (repulsion_target_near m a b Hd); fold d; cbn [JS.bind fst snd].
  pose proof (repulsion_force_range d Hd) as HF.
  set (F := Repulsion.force d * Repulsion.MOUSE_RADIUS * 0.1) in *.
  f_equal; unfold euclid.
  replace (a + (a - Repulsion.mx m) / d * Repulsion.force d
               * Repulsion.MOUSE_RADIUS * 0.1 - a)
    with (F / d * (a - Repulsion.mx m)) by (unfold F; field; lra).
  replace (b + (b - Repulsion.my m) / d * Repulsion.force d
               * Repulsion.MOUSE_RADIUS * 0.1 - b)
    with (F / d * (b - Repulsion.my m)) by (unfold F; field; lra).
  rewrite sqrt_scaled.
  - change (sqrt _) with d; field; lra.
  - apply Rlt_le, Rdiv_lt_0_compat; lra.
Qed.

Lemma repulsion_push_off (m : Repulsion.Mouse) (a b : R) :
  let d := euclid a b (Repulsion.mx m) (Repulsion.my m) in
  d = 0 \/ Repulsion.MOUSE_RADIUS <= d ->
  Repulsion.target m a b = Some (a, b) /\ Repulsion.push m a b = Some 0.
Proof.
  intros d H; pose proof (repulsion_target_off m a b H) as E.
  split; [exact E|].
  unfold Repulsion.push; rewrite E; cbn [JS.bind fst snd].
  now rewrite euclid_self.
Qed.

(** C1, the claim as stated fails.  In the network the displacement of the
    target is not decreasing in the distance: a pointer 140 away displaces
    the target by 10.08, one 70 away by 7.56 only, and a pointer on the home
    position (distance 0) displaces it by 0.  In the repulsion field a
    pointer on the home position pushes by 0 too, less than one 75 away. *)
Lemma influence_not_maximal_at_zero_distance :
  euclid 0 0 70 0 = 70 /\ euclid 0 0 140 0 = 140
  /\ Network.pull (Network.mkMouse 70 0 true) 0 0 = 7.56
  /\ Network.pull (Network.mkMouse 140 0 true) 0 0 = 10.08
  /\ Network.pull (Network.mkMouse 0 0 true) 0 0 = 0
  /\ Network.pull (Network.mkMouse 70 0 true) 0 0
     < Network.pull (Network.mkMouse 140 0 true) 0 0
  /\ Repulsion.push (Repulsion.mkMouse 0 0) 0 0 = Some 0
  /\ Repulsion.push (Repulsion.mkMouse 75 0) 0 0 = Some 60.
Proof.
  assert (E70 : euclid 0 0 70 0 = 70) by (rewrite euclid_on_axis; lra).
  assert (E140 : euclid 0 0 140 0 = 140) by (rewrite euclid_on_axis; lra).
  assert (E75 : euclid 0 0 75 0 = 75) by (rewrite euclid_on_axis; lra).
  assert (P70 : Network.pull (Network.mkMouse 70 0 true) 0 0 = 7.56).
  { rewrite network_pull_near; cbn [Network.mx Network.my Network.active];
      rewrite ?E70; unfold Network.strength, Network.MOUSE_RADIUS,
                      Network.MOUSE_ATTRACT; try reflexivity; lra. }
  assert (P140 : Network.pull (Network.mkMouse 140 0 true) 0 0 = 10.08).
  { rewrite network_pull_near; cbn [Network.mx Network.my Network.active];
      rewrite ?E140; unfold Network.strength, Network.MOUSE_RADIUS,
                       Network.MOUSE_ATTRACT; try reflexivity; lra. }
  repeat split; try assumption.
  - apply network_pull_off; right; left; apply euclid_self.
  - rewrite P70, P140; lra.
  - apply repulsion_push_off; left; apply euclid_self.
  - rewrite repulsion_push_near; cbn [Repulsion.mx Repulsion.my];
      rewrite ?E75; unfold Repulsion.force, Repulsion.MOUSE_RADIUS,
                      Repulsion.REPULSION_STRENGTH; [f_equal|]; lra.
Qed.

(** C1, amended.  The influence of the pointer depends on the distance [d]
    from pointer to home position only, and acts for [0 < d < radius]; at
    [d = 0] and at [d >= radius] the target is the home position.  The
    strength coefficient [(1 - d / radius) * k] decreases strictly with [d],
    from [k] at [d = 0] to exactly zero at [d = radius].  In the network the
    displacement is [d * (1 - d / 280) * 0.012 * 12], at most 10.08; in the
    repulsion field the push is [(1 - d / 150) * 8 * 150 * 0.1], strictly
    decreasing in [d] and below 120. *)
Theorem pointer_influence_by_distance :
  (forall (m : Network.Mouse) (a b : R),
     let d := euclid a b (Network.mx m) (Network.my m) in
     Network.active m = true ->
     (0 < d < Network.MOUSE_RADIUS ->
        Network.pull m a b
        = d * (1 - d / Network.MOUSE_RADIUS) * Network.MOUSE_ATTRACT * 12
        /\ 0 < Network.pull m a b <= 10.08)
     /\ (d = 0 \/ Network.MOUSE_RADIUS <= d ->
           Network.target m a b = (a, b) /\ Network.pull m a b = 0))
  /\ (forall d1 d2 : R,
        d1 < d2 -> Network.strength d2 * 12 < Network.strength d1 * 12)
  /\ Network.strength 0 * 12 = 0.144
  /\ Network.strength Network.MOUSE_RADIUS * 12 = 0
  /\ (forall (m : Repulsion.Mouse) (a b : R),
        let d := euclid a b (Repulsion.mx m) (Repulsion.my m) in
        (0 < d < Repulsion.MOUSE_RADIUS ->
           Repulsion.push m a b
           = Some ((1 - d / Repulsion.MOUSE_RADIUS)
                   * Repulsion.REPULSION_STRENGTH * Repulsion.MOUSE_RADIUS * 0.1))
        /\ (d = 0 \/ Repulsion.MOUSE_RADIUS <= d ->
              Repulsion.target m a b = Some (a, b)
              /\ Repulsion.push m a b = Some 0))
  /\ (forall d1 d2 : R,
        d1 < d2 ->
        Repulsion.force d2 * Repulsion.MOUSE_RADIUS * 0.1
        < Repulsion.force d1 * Repulsion.MOUSE_RADIUS * 0.1)
  /\ Repulsion.force 0 * Repulsion.MOUSE_RADIUS * 0.1 = 120
  /\ Repulsion.force Repulsion.MOUSE_RADIUS * Repulsion.MOUSE_RADIUS * 0.1 = 0.
Proof.
  split; [|split; [|split; [|split; [|split; [|split; [|split]]]]]].
  - intros m a b d Ha; split.
    + intros Hd; rewrite (network_pull_near m a b Ha Hd); fold d.
      clearbody d.
      unfold Network.strength, Network.MOUSE_RADIUS, Network.MOUSE_ATTRACT
        in *.
      split; [ring|].
      pose proof (Rle_0_sqr (d - 140)) as Hq; unfold Rsqr in Hq.
      split; nra.
    + intros Hd; apply network_pull_off; now right.
  - intros d1 d2 H.
    unfold Network.strength, Network.MOUSE_RADIUS, Network.MOUSE_ATTRACT; lra.
  - unfold Network.strength, Network.MOUSE_RADIUS, Network.MOUSE_ATTRACT; lra.
  - unfold Network.strength, Network.MOUSE_RADIUS, Network.MOUSE_ATTRACT; lra.
  - intros m a b d; split.
    + intros Hd; rewrite (repulsion_push_near m a b Hd); reflexivity.
    + apply repulsion_push_off.
  - intros d1 d2 H.
    unfold Repulsion.force, Repulsion.MOUSE_RADIUS,
      Repulsion.REPULSION_STRENGTH; lra.
  - unfold Repulsion.force, Repulsion.MOUSE_RADIUS,
      Repulsion.REPULSION_STRENGTH; lra.
  - unfold Repulsion.force, Repulsion.MOUSE_RADIUS,
      Repulsion.REPULSION_STRENGTH; lra.
Qed.

Lemma pointer_influence_by_distance_witness :
  (70 < 140)
  /\ Network.strength 140 * 12 < Network.strength 70 * 12.
Proof.
  assert (H : 70 < 140) by lra.
  split; [exact H|].
  apply (proj1 (proj2 pointer_influence_by_distance) 70 140 H).
Defined.

(** ** Convergence of the rendered position while the pointer is inactive *)

Section Lerp.

Variables a b t : R.
Hypothesis t_range : 0 <= t <= 1.

Lemma lerp_gap : Network.lerp a b t - b = (1 - t) * (a - b).
Proof. unfold Network.lerp; ring. Qed.

Lemma lerp_between_up : a <= b -> a <= Network.lerp a b t <= b.
Proof. intros H; unfold Network.lerp; split; nra. Qed.

Lemma lerp_between_down : b <= a -> b <= Network.lerp a b t <= a.
Proof. intros H; unfold Network.lerp; split; nra. Qed.

Lemma lerp_abs_gap : Rabs (Network.lerp a b t - b) = (1 - t) * Rabs (a - b).
Proof.
  rewrite lerp_gap, Rabs_mult, (Rabs_pos_eq (1 - t)) by lra; reflexivity.
Qed.

End Lerp.

Lemma repulsion_lerp_network (a b t : R) :
  Repulsion.lerp a b t = Network.lerp a b t.
Proof. reflexivity. Qed.

Lemma euclid_lerp (a1 a2 b1 b2 t : R) :
  0 <= t <= 1 ->
  euclid (Network.lerp a1 b1 t) (Network.lerp a2 b2 t) b1 b2
  = (1 - t) * euclid a1 a2 b1 b2.
Proof. intros Ht; unfold Network.lerp; apply euclid_to_end; lra. Qed.

Lemma lerp_settles (t cx cy gx' gy' : R) :
  0 <= t <= 1 ->
  settles t cx cy (Network.lerp cx gx' t) (Network.lerp cy gy' t) gx' gy'.
Proof.
  intros Ht; unfold settles.
  rewrite euclid_lerp by assumption.
  pose proof (euclid_nonneg cx cy gx' gy') as Hn.
  repeat split; try nra;
    try (now apply lerp_between_up); try (now apply lerp_between_down).
Qed.

(** C3, the claim as stated fails.  A node of the network seeded at
    (100, 100) with drift velocity (0.1, 0) is rendered on its home position;
    one frame with the pointer inactive later the home position is at 100.1,
    the rendered position at 100.007, and the distance between them has
    grown from 0 to 0.093.  A node that drifts past the right margin has its
    home position wrapped to the left one, and the distance jumps from
    0.5 to 1822.335. *)
Lemma drift_widens_render_gap :
  euclid (Network.x Sample.drifting) (Network.y Sample.drifting)
         (Network.ox Sample.drifting) (Network.oy Sample.drifting) = 0
  /\ euclid
       (Network.x (Network.update 1000 1000 Network.mouse0 Sample.drifting))
       (Network.y (Network.update 1000 1000 Network.mouse0 Sample.drifting))
       (Network.ox (Network.update 1000 1000 Network.mouse0 Sample.drifting))
       (Network.oy (Network.update 1000 1000 Network.mouse0 Sample.drifting))
     = 0.093
  /\ euclid (Network.x Sample.at_margin) (Network.y Sample.at_margin)
            (Network.ox Sample.at_margin) (Network.oy Sample.at_margin) = 0.5
  /\ euclid
       (Network.x (Network.update 1920 1080 Network.mouse0 Sample.at_margin))
       (Network.y (Network.update 1920 1080 Network.mouse0 Sample.at_margin))
       (Network.ox (Network.update 1920 1080 Network.mouse0 Sample.at_margin))
       (Network.oy (Network.update 1920 1080 Network.mouse0 Sample.at_margin))
     = 1822.335.
Proof.
  set (n := Sample.drifting).
  set (n' := Network.update 1000 1000 Network.mouse0 n).
  set (k := Sample.at_margin).
  set (k' := Network.update 1920 1080 Network.mouse0 k).
  assert (En : Network.ox n' = 100.1 /\ Network.oy n' = 100).
  { destruct (network_update_home 1000 1000 Network.mouse0 n) as [Ex Ey].
    subst n'; rewrite Ex, Ey.
    cbn [n Sample.drifting Network.ox Network.oy Network.vx Network.vy].
    rewrite !network_wrap_inside by (try lia; lra); lra. }
  assert (Ek : Network.ox k' = -20 /\ Network.oy k' = 500).
  { destruct (network_update_home 1920 1080 Network.mouse0 k) as [Ex Ey].
    subst k'; rewrite Ex, Ey.
    cbn [k Sample.at_margin Network.ox Network.oy Network.vx Network.vy].
    rewrite network_wrap_high, network_wrap_inside by (try lia; lra); lra. }
  destruct En as [Enx Eny], Ek as [Ekx Eky].
  destruct (network_update_inactive 1000 1000 Network.mouse0 n eq_refl)
    as [Rnx Rny].
  destruct (network_update_inactive 1920 1080 Network.mouse0 k eq_refl)
    as [Rkx Rky].
  fold n' in Rnx, Rny; fold k' in Rkx, Rky.
  rewrite Enx in Rnx; rewrite Eny in Rny; rewrite Ekx in Rkx; rewrite Eky in Rky.
  rewrite Rnx, Rny, Rkx, Rky, Enx, Eny, Ekx, Eky.
  cbn [n k Sample.drifting Sample.at_margin
       Network.x Network.y Network.ox Network.oy].
  unfold Network.lerp, Network.LERP_RETURN.
  repeat split.
  - apply euclid_self.
  - replace (100 + (100 - 100) * (0.03 + 0.04)) with 100 by lra.
    rewrite euclid_on_axis; lra.
  - rewrite euclid_on_axis; lra.
  - replace (500 + (500 - 500) * (0.03 + 0.04)) with 500 by lra.
    rewrite euclid_sym, euclid_on_axis; lra.
Qed.

Lemma lerp_tracks_drift (c g v t : R) :
  0 <= t <= 1 ->
  Rabs (Network.lerp c (g + v) t - (g + v))
  <= (1 - t) * (Rabs (c - g) + Rabs v).
Proof.
  intros Ht; rewrite lerp_abs_gap by assumption.
  apply Rmult_le_compat_l; [lra|].
  replace (c - (g + v)) with ((c - g) + - v) by ring.
  rewrite <- (Rabs_Ropp v); apply Rabs_triang.
Qed.

(** C3, amended.  With the pointer inactive, a frame moves the rendered
    position a fraction [t] of the way to the home position of that frame
    (drifted, and wrapped if need be), [t = 0.07] in the network and 0.04 in
    the repulsion field: it ends on the segment between the two, [1 - t]
    times as far from that home position as before, so it neither
    overshoots nor oscillates.  When the drift velocity is zero the distance
    between rendered and home position shrinks by [1 - t] from frame to
    frame; when it is not, and no wrap occurs, the gap on an axis is at most
    [1 - t] times the former gap plus the drift of that axis. *)
Theorem inactive_render_settles_toward_home (w h : Z) :
  (0 <= w)%Z -> (0 <= h)%Z ->
  (forall (m : Network.Mouse) (n : Network.Node),
     Network.active m = false ->
     let n' := Network.update w h m n in
     let t := Network.LERP_RETURN + 0.04 in
     settles t (Network.x n) (Network.y n) (Network.x n') (Network.y n')
             (Network.ox n') (Network.oy n')
     /\ (Network.vx n = 0 -> Network.vy n = 0 -> Network.home_inv w h n ->
           euclid (Network.x n') (Network.y n') (Network.ox n') (Network.oy n')
           = (1 - t) * euclid (Network.x n) (Network.y n)
                              (Network.ox n) (Network.oy n))
     /\ (-20 <= Network.ox n + Network.vx n <= IZR w + 20 ->
           Rabs (Network.x n' - Network.ox n')
           <= (1 - t) * (Rabs (Network.x n - Network.ox n)
                         + Rabs (Network.vx n)))
     /\ (-20 <= Network.oy n + Network.vy n <= IZR h + 20 ->
           Rabs (Network.y n' - Network.oy n')
           <= (1 - t) * (Rabs (Network.y n - Network.oy n)
                         + Rabs (Network.vy n))))
  /\ (forall p : Repulsion.Particle,
        exists p', Repulsion.update w h Repulsion.offscreen p = Some p' /\
        let t := Repulsion.LERP_SPEED in
        settles t (Repulsion.x p) (Repulsion.y p)
                (Repulsion.x p') (Repulsion.y p')
                (Repulsion.baseX p') (Repulsion.baseY p')
        /\ (Repulsion.vx p = 0 -> Repulsion.vy p = 0 ->
            Repulsion.home_inv w h p ->
              euclid (Repulsion.x p') (Repulsion.y p')
                     (Repulsion.baseX p') (Repulsion.baseY p')
              = (1 - t) * euclid (Repulsion.x p) (Repulsion.y p)
                                 (Repulsion.baseX p) (Repulsion.baseY p))
        /\ (-10 <= Repulsion.baseX p + Repulsion.vx p <= IZR w + 10 ->
              Rabs (Repulsion.x p' - Repulsion.baseX p')
              <= (1 - t) * (Rabs (Repulsion.x p - Repulsion.baseX p)
                            + Rabs (Repulsion.vx p)))
        /\ (-10 <= Repulsion.baseY p + Repulsion.vy p <= IZR h + 10 ->
              Rabs (Repulsion.y p' - Repulsion.baseY p')
              <= (1 - t) * (Rabs (Repulsion.y p - Repulsion.baseY p)
                            + Rabs (Repulsion.vy p)))).
Proof.
  intros Hw Hh; split.
  - intros m n Ha n' t.
    assert (Ht : 0 <= t <= 1) by (unfold t, Network.LERP_RETURN; lra).
    destruct (network_update_inactive w h m n Ha) as [Ex Ey].
    destruct (network_update_home w h m n) as [Hx Hy].
    fold n' in Ex, Ey, Hx, Hy; fold t in Ex, Ey.
    split; [|split; [|split]].
    + rewrite Ex, Ey; now apply lerp_settles.
    + intros Vx Vy [Ix Iy].
      rewrite Ex, Ey, euclid_lerp by assumption.
      rewrite Hx, Hy, Vx, Vy, !Rplus_0_r.
      now rewrite !network_wrap_inside.
    + intros I; rewrite Ex, Hx, network_wrap_inside by assumption.
      now apply lerp_tracks_drift.
    + intros I; rewrite Ey, Hy, network_wrap_inside by assumption.
      now apply lerp_tracks_drift.
  - intros p.
    destruct (repulsion_update_offscreen w h p Hw Hh)
      as [p' [Eu [Hx [Hy [Ex Ey]]]]].
    exists p'; split; [exact Eu|]; intros t.
    assert (Ht : 0 <= t <= 1) by (unfold t, Repulsion.LERP_SPEED; lra).
    fold t in Ex, Ey; rewrite repulsion_lerp_network in Ex, Ey.
    split; [|split; [|split]].
    + rewrite Ex, Ey; now apply lerp_settles.
    + intros Vx Vy [Ix Iy].
      rewrite Ex, Ey, euclid_lerp by assumption.
      rewrite Hx, Hy, Vx, Vy, !Rplus_0_r.
      now rewrite !repulsion_wrap_inside.
    + intros I; rewrite Ex, Hx, repulsion_wrap_inside by assumption.
      now apply lerp_tracks_drift.
    + intros I; rewrite Ey, Hy, repulsion_wrap_inside by assumption.
      now apply lerp_tracks_drift.
Qed.

Lemma inactive_render_settles_toward_home_witness :
  (0 <= 1000)%Z /\ (0 <= 1000)%Z
  /\ Network.active Network.mouse0 = false
  /\ settles (Network.LERP_RETURN + 0.04)
       (Network.x Sample.drifting) (Network.y Sample.drifting)
       (Network.x (Network.update 1000 1000 Network.mouse0 Sample.drifting))
       (Network.y (Network.update 1000 1000 Network.mouse0 Sample.drifting))
       (Network.ox (Network.update 1000 1000 Network.mouse0 Sample.drifting))
       (Network.oy (Network.update 1000 1000 Network.mouse0 Sample.drifting)).
Proof.
  assert (Hw : (0 <= 1000)%Z) by lia.
  split; [exact Hw | split; [exact Hw | split; [reflexivity|]]].
  apply (proj1 (inactive_render_settles_toward_home 1000 1000 Hw Hw)
           Network.mouse0 Sample.drifting eq_refl).
Defined.

(** ** Edges of the network *)

Lemma in_emit {A : Type} (o : option A) (c : A) :
  In c (JS.emit o) <-> o = Some c.
Proof.
  destruct o as [a|]; cbn; split; intros H; try easy.
  - destruct H as [-> | []]; reflexivity.
  - injection H as ->; now left.
Qed.

Lemma node_edge_far (a b : Network.Node) :
  Network.CONNECT_DIST
  <= euclid (Network.x a) (Network.y a) (Network.x b) (Network.y b) ->
  Network.node_edge a b = None.
Proof.
  intros Hd; unfold Network.node_edge; rewrite network_dist_euclid.
  apply ltb_false in Hd; now rewrite Hd.
Qed.

Lemma node_edge_near (a b : Network.Node) :
  let d := euclid (Network.x a) (Network.y a) (Network.x b) (Network.y b) in
  d < Network.CONNECT_DIST ->
  Network.node_edge a b
  = Some (Stroke (Network.x a) (Network.y a) (Network.x b) (Network.y b)
                 Network.LINE_BASE_COLOR
                 ((1 - d / Network.CONNECT_DIST) * 0.35) 0.6).
Proof.
  intros d Hd; unfold Network.node_edge; rewrite network_dist_euclid.
  fold d; apply ltb_true in Hd; now rewrite Hd.
Qed.

(** The commands of the double loop: one per pair [i < j] that is close
    enough, one per node close enough to an active pointer. *)
Lemma draw_edges_spec (m : Network.Mouse) (ns : list Network.Node) (c : Cmd) :
  In c (Network.draw_edges m ns)
  <-> (exists i j a b,
          (i < j)%nat /\ nth_error ns i = Some a /\ nth_error ns j = Some b
          /\ Network.node_edge a b = Some c)
      \/ (exists a, In a ns /\ Network.mouse_edge m a = Some c).
Proof.
  induction ns as [|a rest IH]; cbn [Network.draw_edges].
  - split; [intros []|].
    intros [[i [j [a [b [_ [Hi _]]]]]] | [a [Ha _]]].
    + now destruct i.
    + destruct Ha.
  - rewrite !in_app_iff, in_flat_map, in_emit, IH; clear IH; split.
    + intros [(b & Hb & Hc) | [Hc | [(i & j & a' & b & Hij & Hi & Hj & Hc)
                                       | (a' & Ha & Hc)]]].
      * apply in_emit in Hc; apply In_nth_error in Hb; destruct Hb as [k Hk].
        left; exists 0%nat, (S k), a, b; repeat split; try assumption; lia.
      * right; exists a; split; [now left | assumption].
      * left; exists (S i), (S j), a', b; repeat split; try assumption; lia.
      * right; exists a'; split; [now right | assumption].
    + intros [(i & j & a' & b & Hij & Hi & Hj & Hc) | (a' & [<- | Ha] & Hc)].
      * destruct j as [|j]; [lia|]; cbn in Hj.
        destruct i as [|i]; cbn in Hi.
        -- injection Hi as <-; left; exists b; split.
           ++ eapply nth_error_In; eassumption.
           ++ now apply in_emit.
        -- right; right; left; exists i, j, a', b.
           repeat split; try assumption; lia.
      * right; now left.
      * right; right; right; exists a'; now split.
Qed.

(** C8. In the network the pair of nodes [(a, b)] gets no edge when the
    distance [d] of their rendered positions is at least [CONNECT_DIST]; when
    [d] is smaller the edge is stroked with opacity
    [(1 - d / CONNECT_DIST) * 0.35], positive, at most 0.35 and short of 0.35
    by [d * 0.35 / CONNECT_DIST] (linear, reaching 0.35 as [d] goes to 0).
    A frame draws exactly the edges of the pairs [i < j] of the collection
    and the pointer edges. *)
Theorem connection_opacity_linear_falloff :
  (forall a b : Network.Node,
     let d := euclid (Network.x a) (Network.y a) (Network.x b) (Network.y b) in
     let opacity := (1 - d / Network.CONNECT_DIST) * 0.35 in
     (Network.CONNECT_DIST <= d -> Network.node_edge a b = None)
     /\ (d < Network.CONNECT_DIST ->
           Network.node_edge a b
           = Some (Stroke (Network.x a) (Network.y a)
                          (Network.x b) (Network.y b)
                          Network.LINE_BASE_COLOR opacity 0.6)
           /\ 0 < opacity <= 0.35
           /\ 0.35 - opacity = d * (0.35 / Network.CONNECT_DIST)))
  /\ (forall (m : Network.Mouse) (ns : list Network.Node) (c : Cmd),
        In c (Network.draw_edges m ns)
        <-> (exists i j a b,
                (i < j)%nat /\ nth_error ns i = Some a
                /\ nth_error ns j = Some b
                /\ Network.node_edge a b = Some c)
            \/ (exists a, In a ns /\ Network.mouse_edge m a = Some c)).
Proof.
  split; [|exact draw_edges_spec].
  intros a b d opacity; split.
  - apply node_edge_far.
  - intros Hd; split; [now apply node_edge_near|].
    pose proof (euclid_nonneg (Network.x a) (Network.y a)
                              (Network.x b) (Network.y b)) as Hn.
    fold d in Hn; subst opacity; clearbody d.
    unfold Network.CONNECT_DIST in *; repeat split; lra.
Qed.

Lemma connection_opacity_linear_falloff_witness :
  euclid 0 0 90 0 < Network.CONNECT_DIST
  /\ Network.node_edge Sample.node_a Sample.node_b
     = Some (Stroke 0 0 90 0 Network.LINE_BASE_COLOR
               ((1 - euclid 0 0 90 0 / Network.CONNECT_DIST) * 0.35) 0.6).
Proof.
  assert (Hd : euclid 0 0 90 0 < Network.CONNECT_DIST).
  { rewrite euclid_on_axis by lra; unfold Network.CONNECT_DIST; lra. }
  split; [exact Hd|].
  apply (proj2 (proj1 connection_opacity_linear_falloff
                  Sample.node_a Sample.node_b) Hd).
Defined.

(** ** What a frame writes *)

Lemma network_update_fixed (w h : Z) (m : Network.Mouse) (n : Network.Node) :
  Network.fixed_part (Network.update w h m n) = Network.fixed_part n.
Proof. unfold Network.update; now destruct (Network.target m _ _). Qed.

Lemma network_handle_nodes (e : Network.Event) (f : Network.Field) :
  Network.nodes (Network.handle e f) = Network.nodes f
  /\ Network.W (Network.handle e f) = Network.W f
  /\ Network.H (Network.handle e f) = Network.H f.
Proof. destruct e as [cx cy| |[|[cx cy] ts]|]; repeat split. Qed.

Lemma network_events_nodes (es : list Network.Event) (f : Network.Field) :
  Network.nodes (fold_left (fun g e => Network.handle e g) es f)
  = Network.nodes f.
Proof.
  revert f; induction es as [|e es IH]; intros f; cbn [fold_left].
  - reflexivity.
  - rewrite IH; apply network_handle_nodes.
Qed.

Lemma network_animate_fixed (f : Network.Field) :
  map Network.fixed_part (Network.nodes (fst (Network.animate f)))
  = map Network.fixed_part (Network.nodes f).
Proof.
  cbn [Network.animate fst Network.nodes]; rewrite map_map.
  apply map_ext; intros n; apply network_update_fixed.
Qed.

Lemma network_run_fixed (frames : list (list Network.Event))
      (f : Network.Field) :
  map Network.fixed_part (Network.nodes (Network.run frames f))
  = map Network.fixed_part (Network.nodes f).
Proof.
  revert f; induction frames as [|es frames IH]; intros f;
    cbn [Network.run].
  - reflexivity.
  - now rewrite IH, network_animate_fixed, network_events_nodes.
Qed.

Lemma repulsion_update_fixed (w h : Z) (m : Repulsion.Mouse)
      (p p' : Repulsion.Particle) :
  Repulsion.update w h m p = Some p' ->
  Repulsion.fixed_part p' = Repulsion.fixed_part p.
Proof.
  destruct (repulsion_update_total w h m p) as [tg [_ E]].
  rewrite E; now intros [= <-].
Qed.

Lemma repulsion_events_particles (es : list Repulsion.Event)
      (f : Repulsion.Field) :
  Repulsion.particles (fold_left (fun g e => Repulsion.handle e g) es f)
  = Repulsion.particles f.
Proof.
  revert f; induction es as [|e es IH]; intros f; cbn [fold_left].
  - reflexivity.
  - rewrite IH; now destruct e as [cx cy| |[|[cx cy] ts]|].
Qed.

Lemma repulsion_animate_fixed (f : Repulsion.Field) :
  exists out, Repulsion.animate f = Some out
    /\ map Repulsion.fixed_part (Repulsion.particles (fst out))
       = map Repulsion.fixed_part (Repulsion.particles f).
Proof.
  destruct (repulsion_animate_total f) as [ps' [E F]].
  eexists; split; [exact E|]; cbn [fst Repulsion.particles].
  clear E; induction F as [|p p' ps ps' Hu _ IH]; cbn [map].
  - reflexivity.
  - now rewrite IH, (repulsion_update_fixed _ _ _ _ _ Hu).
Qed.

Lemma repulsion_run_fixed (frames : list (list Repulsion.Event))
      (f : Repulsion.Field) :
  exists f', Repulsion.run frames f = Some f'
    /\ map Repulsion.fixed_part (Repulsion.particles f')
       = map Repulsion.fixed_part (Repulsion.particles f).
Proof.
  revert f; induction frames as [|es frames IH]; intros f;
    cbn [Repulsion.run].
  - now exists f.
  - destruct (repulsion_animate_fixed
                (fold_left (fun g e => Repulsion.handle e g) es f))
      as [out [E Hfix]].
    rewrite E; cbn [JS.bind].
    destruct (IH (fst out)) as [f' [Er Hf]].
    exists f'; split; [exact Er|].
    now rewrite Hf, Hfix, repulsion_events_particles.
Qed.

(** C9. After seeding, a frame writes the rendered and the home position of
    a particle and nothing else: the update of one node, a frame, and any
    run of frames with pointer events in between leave the drift velocity,
    radius and phase (network) and the drift velocity, radius, colour and
    alpha (repulsion field) of every particle as they were, particle by
    particle.  The network draws a node with the radius [r * pulse], where
    [pulse = 1 + sin (t * 2 + phase) * 0.15], computed for the drawing
    command only. *)
Theorem frames_write_positions_only :
  (forall (w h : Z) (m : Network.Mouse) (n : Network.Node),
     Network.fixed_part (Network.update w h m n) = Network.fixed_part n)
  /\ (forall f : Network.Field,
        map Network.fixed_part (Network.nodes (fst (Network.animate f)))
        = map Network.fixed_part (Network.nodes f))
  /\ (forall (frames : list (list Network.Event)) (f : Network.Field),
        map Network.fixed_part (Network.nodes (Network.run frames f))
        = map Network.fixed_part (Network.nodes f))
  /\ (forall (t : R) (m : Network.Mouse) (n : Network.Node),
        exists c al,
          In (FillArc (Network.x n) (Network.y n)
                (Network.r n * (1 + sin (t * 2 + Network.phase n) * 0.15))
                c al)
             (Network.draw_node t m n))
  /\ (forall f : Repulsion.Field,
        exists out, Repulsion.animate f = Some out
          /\ map Repulsion.fixed_part (Repulsion.particles (fst out))
             = map Repulsion.fixed_part (Repulsion.particles f))
  /\ (forall (frames : list (list Repulsion.Event)) (f : Repulsion.Field),
        exists f', Repulsion.run frames f = Some f'
          /\ map Repulsion.fixed_part (Repulsion.particles f')
             = map Repulsion.fixed_part (Repulsion.particles f)).
Proof.
  split; [|split; [|split; [|split; [|split]]]].
  - exact network_update_fixed.
  - exact network_animate_fixed.
  - exact network_run_fixed.
  - intros t m n; unfold Network.draw_node, Network.pulsed_radius.
    destruct (Network.glows m n); do 2 eexists;
      apply in_or_app; right; left; reflexivity.
  - exact repulsion_animate_fixed.
  - exact repulsion_run_fixed.
Qed.

(** ** Seeding the network *)

Lemma seed_loop_length (rand : JS.Random) (k count : nat) (w h : Z) :
  List.length (Network.seed_loop rand k count w h) = count.
Proof.
  revert k; induction count as [|count IH]; intros k;
    cbn [Network.seed_loop List.length]; [reflexivity | now rewrite IH].
Qed.

Lemma seed_loop_inside (rand : JS.Random) (k count : nat) (w h : Z) :
  JS.draws_ok rand -> (0 <= w)%Z -> (0 <= h)%Z ->
  Forall (Network.starts_inside w h) (Network.seed_loop rand k count w h).
Proof.
  intros Hr Hw Hh; apply IZR_le in Hw, Hh.
  revert k; induction count as [|count IH]; intros k;
    cbn [Network.seed_loop]; constructor; [|apply IH].
  pose proof (Hr k) as Hk; pose proof (Hr (k + 1)%nat) as Hk1.
  unfold Network.starts_inside; cbn [Network.x Network.y Network.ox Network.oy].
  repeat split; nra.
Qed.

Lemma seed_count_floor (w h : Z) :
  (40 <= Network.seed_count w h)%Z
  /\ Network.seed_count w h
     = Z.max 40 (Zfloor (IZR w * IZR h * Network.NODE_DENSITY)).
Proof. unfold Network.seed_count, JS.Math_max, JS.Math_floor; split; [lia|easy]. Qed.

Lemma seed_count_1920_1080 : Network.seed_count 1920 1080 = 165%Z.
Proof.
  unfold Network.seed_count, JS.Math_max, JS.Math_floor.
  replace (Zfloor (IZR 1920 * IZR 1080 * Network.NODE_DENSITY)) with 165%Z;
    [reflexivity|].
  symmetry; apply Zfloor_eq; unfold Network.NODE_DENSITY; lra.
Qed.

(** C2, the claim as stated fails.  For a 1920 by 1080 viewport the area is
    2073600 and [area * NODE_DENSITY] is 165.888: the seeder makes 165 nodes,
    not 155. *)
Lemma seed_1920_1080_is_not_155 :
  IZR 1920 * IZR 1080 * Network.NODE_DENSITY = 165.888
  /\ Network.seed_count 1920 1080 = 165%Z
  /\ Network.seed_count 1920 1080 <> 155%Z
  /\ List.length (Network.seed (fun _ => 0.5) 1920 1080) <> 155%nat.
Proof.
  split; [unfold Network.NODE_DENSITY; lra|].
  split; [exact seed_count_1920_1080|].
  unfold Network.seed; rewrite seed_loop_length, seed_count_1920_1080.
  split; [lia|]; cbn; lia.
Qed.

(** C2, amended.  The seeder makes [max 40 (floor (width * height *
    NODE_DENSITY))] nodes, which is 165 for a 1920 by 1080 viewport, as a
    resize to these dimensions does; whatever numbers in [0, 1) the random
    source draws, every seeded node is rendered on its home position, inside
    [0, width] x [0, height]. *)
Theorem seed_count_and_bounds (rand : JS.Random) (w h : Z) :
  JS.draws_ok rand -> (0 <= w)%Z -> (0 <= h)%Z ->
  Network.seed_count 1920 1080 = 165%Z
  /\ List.length (Network.seed rand 1920 1080) = 165%nat
  /\ Forall (Network.starts_inside 1920 1080) (Network.seed rand 1920 1080)
  /\ (forall f : Network.Field,
        List.length (Network.nodes (Network.resize rand 1920 1080 f))
        = 165%nat)
  /\ Network.seed_count w h
     = Z.max 40 (Zfloor (IZR w * IZR h * Network.NODE_DENSITY))
  /\ List.length (Network.seed rand w h) = Z.to_nat (Network.seed_count w h)
  /\ Forall (Network.starts_inside w h) (Network.seed rand w h)
  /\ (forall f : Network.Field,
        Network.nodes (Network.resize rand w h f) = Network.seed rand w h).
Proof.
  intros Hr Hw Hh.
  assert (L : List.length (Network.seed rand 1920 1080) = 165%nat).
  { unfold Network.seed; rewrite seed_loop_length, seed_count_1920_1080.
    reflexivity. }
  split; [exact seed_count_1920_1080|].
  split; [exact L|].
  split; [apply seed_loop_inside; [assumption | lia | lia]|].
  split; [intros f; exact L|].
  split; [apply seed_count_floor|].
  split; [apply seed_loop_length|].
  split; [now apply seed_loop_inside|].
  reflexivity.
Qed.

Lemma seed_count_and_bounds_witness :
  JS.draws_ok (fun _ => 0.5) /\ (0 <= 1920)%Z /\ (0 <= 1080)%Z
  /\ List.length (Network.seed (fun _ => 0.5) 1920 1080) = 165%nat.
Proof.
  assert (Hr : JS.draws_ok (fun _ => 0.5)) by (intros k; lra).
  assert (Hw : (0 <= 1920)%Z) by lia.
  assert (Hh : (0 <= 1080)%Z) by lia.
  split; [exact Hr | split; [exact Hw | split; [exact Hh|]]].
  apply (proj1 (proj2 (seed_count_and_bounds (fun _ => 0.5) 1920 1080
                         Hr Hw Hh))).
Defined.

(** ** The smoothed pointer of the grid *)

Lemma grid_smooth_active (s : Grid.State) :
  Grid.mouseActive s = true ->
  Grid.smooth s
  = Grid.mkPoint
      (Grid.lerp (Grid.px (Grid.mouse s)) (Grid.px (Grid.rawMouse s)) 0.12)
      (Grid.lerp (Grid.py (Grid.mouse s)) (Grid.py (Grid.rawMouse s)) 0.12).
Proof. intros E; unfold Grid.smooth; now rewrite E. Qed.

Lemma grid_smooth_inactive (s : Grid.State) :
  Grid.mouseActive s = false ->
  Grid.smooth s
  = Grid.mkPoint
      (Grid.lerp (Grid.lerp (Grid.px (Grid.mouse s))
                            (Grid.px (Grid.rawMouse s)) 0.12) (-9999) 0.05)
      (Grid.lerp (Grid.lerp (Grid.py (Grid.mouse s))
                            (Grid.py (Grid.rawMouse s)) 0.12) (-9999) 0.05).
Proof. intros E; unfold Grid.smooth; now rewrite E. Qed.

(** Both lerps of an inactive frame together: an affine map that contracts
    toward [Grid.rest raw] by the factor 0.836. *)
Lemma grid_double_lerp (c raw : R) :
  Grid.lerp (Grid.lerp c raw 0.12) (-9999) 0.05 - Grid.rest raw
  = 0.836 * (c - Grid.rest raw).
Proof. unfold Grid.lerp, Grid.rest; lra. Qed.

Lemma grid_rest_is_sentinel (raw : R) : Grid.rest raw = -9999 <-> raw = -9999.
Proof. unfold Grid.rest; split; intros E; lra. Qed.

Lemma grid_idle_step (n : nat) (s : Grid.State) :
  Grid.run (Grid.idle (S n)) s = Grid.run (Grid.idle n) (fst (Grid.animate s)).
Proof. reflexivity. Qed.

Lemma grid_idle_inactive (n : nat) (s : Grid.State) :
  Grid.mouseActive s = false ->
  Grid.px (Grid.mouse (Grid.run (Grid.idle n) s))
  - Grid.rest (Grid.px (Grid.rawMouse s))
  = 0.836 ^ n * (Grid.px (Grid.mouse s)
                 - Grid.rest (Grid.px (Grid.rawMouse s)))
  /\ Grid.py (Grid.mouse (Grid.run (Grid.idle n) s))
     - Grid.rest (Grid.py (Grid.rawMouse s))
     = 0.836 ^ n * (Grid.py (Grid.mouse s)
                    - Grid.rest (Grid.py (Grid.rawMouse s))).
Proof.
  revert s; induction n as [|n IH]; intros s Hs.
  - cbn [Grid.idle repeat Grid.run pow]; split; ring.
  - rewrite grid_idle_step.
    destruct (IH (fst (Grid.animate s)) Hs) as [Ex Ey].
    change (Grid.rawMouse (fst (Grid.animate s))) with (Grid.rawMouse s)
      in Ex, Ey.
    change (Grid.mouse (fst (Grid.animate s))) with (Grid.smooth s) in Ex, Ey.
    rewrite (grid_smooth_inactive s Hs) in Ex, Ey.
    cbn [Grid.px Grid.py] in Ex, Ey.
    rewrite grid_double_lerp in Ex, Ey.
    rewrite Ex, Ey; cbn [pow]; split; ring.
Qed.

(** Once the raw mouse has been on screen, an inactive smooth mouse stays
    right of -5000: the test of the cursor hub keeps succeeding. *)
Lemma grid_idle_hub (n : nat) (s : Grid.State) :
  Grid.mouseActive s = false ->
  0 <= Grid.px (Grid.rawMouse s) ->
  -5000 < Grid.px (Grid.mouse s) ->
  -5000 < Grid.px (Grid.mouse (Grid.run (Grid.idle n) s)).
Proof.
  revert s; induction n as [|n IH]; intros s Hs Hraw Hm.
  - exact Hm.
  - rewrite grid_idle_step; apply IH; try assumption.
    change (Grid.mouse (fst (Grid.animate s))) with (Grid.smooth s).
    rewrite (grid_smooth_inactive s Hs); cbn [Grid.px].
    unfold Grid.lerp; lra.
Qed.

(** A sequence at distance [q ^ n * c] of [l], with [|q| < 1], tends to [l]. *)
Lemma geometric_cv (u : nat -> R) (l q c : R) :
  Rabs q < 1 -> (forall n, u n - l = q ^ n * c) -> Un_cv u l.
Proof.
  intros Hq Hu eps Heps.
  assert (Hc : 0 < Rabs c + 1) by (pose proof (Rabs_pos c); lra).
  destruct (pow_lt_1_zero q Hq (eps / (Rabs c + 1)))
    as [N HN]; [now apply Rdiv_lt_0_compat|].
  exists N; intros n Hn; unfold Rdist; rewrite Hu, Rabs_mult.
  specialize (HN n Hn).
  apply Rle_lt_trans with (Rabs (q ^ n) * (Rabs c + 1)).
  - apply Rmult_le_compat_l; [apply Rabs_pos | lra].
  - apply Rmult_lt_reg_r with (/ (Rabs c + 1)).
    + now apply Rinv_0_lt_compat.
    + rewrite Rmult_assoc, Rinv_r, Rmult_1_r by lra. exact HN.
Qed.

(** C4, what the code does.  While the pointer is active the smooth mouse is
    lerped toward the raw mouse by 0.12.  While it is inactive the frame
    still lerps toward the raw mouse first and toward -9999 after: the smooth
    mouse then tends, by a factor 0.836 per frame, to [Grid.rest raw], a
    point that depends on the last raw position and is the off-screen
    position only if the raw mouse is there.  After a move to (500, 500) and
    a leave, the smooth mouse starts at -9999, is at -8802.114 one frame
    later, and tends to -221475/82, about -2700.9.  Once the raw mouse has
    been on screen and the smooth mouse is right of -5000, it stays there in
    every later inactive frame, so the hub test [mouse.x > -5000] never
    fails again. *)
Theorem grid_inactive_pointer_rests_short_of_sentinel :
  (forall s : Grid.State,
     Grid.mouseActive s = true ->
     Grid.smooth s
     = Grid.mkPoint
         (Grid.lerp (Grid.px (Grid.mouse s)) (Grid.px (Grid.rawMouse s)) 0.12)
         (Grid.lerp (Grid.py (Grid.mouse s)) (Grid.py (Grid.rawMouse s)) 0.12))
  /\ (forall s : Grid.State,
        Grid.mouseActive s = false ->
        Un_cv (fun n => Grid.px (Grid.mouse (Grid.run (Grid.idle n) s)))
              (Grid.rest (Grid.px (Grid.rawMouse s)))
        /\ Un_cv (fun n => Grid.py (Grid.mouse (Grid.run (Grid.idle n) s)))
                 (Grid.rest (Grid.py (Grid.rawMouse s))))
  /\ (forall raw : R, Grid.rest raw = -9999 <-> raw = -9999)
  /\ (forall (n : nat) (s : Grid.State),
        Grid.mouseActive s = false ->
        0 <= Grid.px (Grid.rawMouse s) ->
        -5000 < Grid.px (Grid.mouse s) ->
        Grid.hub_drawn false (Grid.mouse (Grid.run (Grid.idle n) s)) = true)
  /\ Grid.mouseActive Sample.left_grid = false
  /\ Grid.mouse Sample.left_grid = Grid.mkPoint (-9999) (-9999)
  /\ Grid.px (Grid.mouse (Grid.run (Grid.idle 1) Sample.left_grid))
     = -8802.114
  /\ Grid.rest 500 = -221475 / 82
  /\ Un_cv (fun n =>
              Grid.px (Grid.mouse (Grid.run (Grid.idle n) Sample.left_grid)))
           (-221475 / 82)
  /\ Un_cv (fun n =>
              Grid.py (Grid.mouse (Grid.run (Grid.idle n) Sample.left_grid)))
           (-221475 / 82).
Proof.
  assert (Cv : forall s : Grid.State,
             Grid.mouseActive s = false ->
             Un_cv (fun n => Grid.px (Grid.mouse (Grid.run (Grid.idle n) s)))
                   (Grid.rest (Grid.px (Grid.rawMouse s)))
             /\ Un_cv (fun n => Grid.py (Grid.mouse (Grid.run (Grid.idle n) s)))
                      (Grid.rest (Grid.py (Grid.rawMouse s)))).
  { intros s Hs; split.
    - apply geometric_cv with (q := 0.836)
        (c := Grid.px (Grid.mouse s) - Grid.rest (Grid.px (Grid.rawMouse s))).
      + rewrite Rabs_pos_eq; lra.
      + intros n; apply (grid_idle_inactive n s Hs).
    - apply geometric_cv with (q := 0.836)
        (c := Grid.py (Grid.mouse s) - Grid.rest (Grid.py (Grid.rawMouse s))).
      + rewrite Rabs_pos_eq; lra.
      + intros n; apply (grid_idle_inactive n s Hs). }
  split; [exact grid_smooth_active|].
  split; [exact Cv|].
  split; [exact grid_rest_is_sentinel|].
  split.
  { intros n s Hs Hraw Hm; unfold Grid.hub_drawn; cbn [orb].
    apply gtb_true; now apply grid_idle_hub. }
  assert (Er : Grid.rest 500 = -221475 / 82) by (unfold Grid.rest; lra).
  split; [reflexivity|].
  split; [reflexivity|].
  split.
  { cbn; unfold Grid.lerp; lra. }
  split; [exact Er|].
  rewrite <- Er; exact (Cv Sample.left_grid eq_refl).
Qed.

Lemma grid_inactive_pointer_rests_short_of_sentinel_witness :
  Grid.mouseActive Sample.tracking_grid = true
  /\ Grid.smooth Sample.tracking_grid
     = Grid.mkPoint (Grid.lerp 480 500 0.12) (Grid.lerp 480 500 0.12).
Proof.
  split; [reflexivity|].
  apply (proj1 grid_inactive_pointer_rests_short_of_sentinel
           Sample.tracking_grid eq_refl).
Defined.

(** * Further properties *)

(** ** The network seeder *)




(** X2. The node count has a floor of 40: a viewport of area below 512500
    square pixels, down to the empty viewport, gets exactly 40 nodes; from
    that area on the count is the floor of [area * NODE_DENSITY], so within
    one of it; and the count never decreases when the area grows. *)
Theorem network_seed_count_floor (w h : Z) :
  (40 <= Network.seed_count w h)%Z
  /\ (IZR w * IZR h < 512500 -> Network.seed_count w h = 40%Z)
  /\ (512500 <= IZR w * IZR h ->
        IZR w * IZR h * Network.NODE_DENSITY - 1
        < IZR (Network.seed_count w h)
        <= IZR w * IZR h * Network.NODE_DENSITY)
  /\ (forall w' h' : Z,
        IZR w * IZR h <= IZR w' * IZR h' ->
        (Network.seed_count w h <= Network.seed_count w' h')%Z).
Proof.
  unfold Network.seed_count, JS.Math_max, JS.Math_floor, Network.NODE_DENSITY.
  pose proof (Zfloor_bound (IZR w * IZR h * 0.00008)) as Hb.
  repeat split.
  - lia.
  - intros Ha.
    assert (Zfloor (IZR w * IZR h * 0.00008) < 41)%Z
      by (apply lt_IZR; lra).
    lia.
  - assert (H40 : (40 <= Zfloor (IZR w * IZR h * 0.00008))%Z)
      by (apply Zfloor_lub; lra).
    rewrite Z.max_r by exact H40; lra.
  - assert (H40 : (40 <= Zfloor (IZR w * IZR h * 0.00008))%Z)
      by (apply Zfloor_lub; lra).
    rewrite Z.max_r by exact H40; lra.
  - intros w' h' Hle.
    apply Z.max_le_compat_l, Zfloor_le; lra.
Qed.

Lemma network_seed_count_floor_witness :
  IZR 800 * IZR 600 < 512500 /\ Network.seed_count 800 600 = 40%Z.
Proof.
  assert (Ha : IZR 800 * IZR 600 < 512500) by lra.
  split; [exact Ha|].
  apply (proj1 (proj2 (network_seed_count_floor 800 600)) Ha).
Defined.

(** ** The population of the network between two resizes *)





(** ** Rendered positions of the network stay near the viewport *)

Lemma convex_in_range (lo hi a b k : R) :
  lo <= a <= hi -> lo <= b <= hi -> 0 <= k <= 1 ->
  lo <= a + (b - a) * k <= hi.
Proof.
  intros Ha Hb Hk.
  assert (H1 : 0 <= (a - lo) * (1 - k)) by (apply Rmult_le_pos; lra).
  assert (H2 : 0 <= (b - lo) * k) by (apply Rmult_le_pos; lra).
  assert (H3 : 0 <= (hi - a) * (1 - k)) by (apply Rmult_le_pos; lra).
  assert (H4 : 0 <= (hi - b) * k) by (apply Rmult_le_pos; lra).
  split; lra.
Qed.

Lemma network_target_in_box (w h : Z) (m : Network.Mouse) (a b : R) :
  Pred.pointer_ok w h m -> Pred.in_box 20 w h a b ->
  Pred.in_box 20 w h (fst (Network.target m a b)) (snd (Network.target m a b)).
Proof.
  intros Hm Hab; unfold Network.target.
  destruct (Network.active m) eqn:Ea; [|exact Hab].
  destruct (JS.ltb _ _ && JS.gtb _ _) eqn:E; [|exact Hab].
  apply andb_true_iff in E; destruct E as [Hlt Hgt].
  apply ltb_true in Hlt; apply gtb_true in Hgt.
  rewrite network_dist_euclid in *.
  pose proof (network_strength_range _ (conj Hgt Hlt)) as Hs.
  destruct (Hm Ea) as [Hmx Hmy], Hab as [Ha Hb]; cbn [fst snd].
  rewrite !Rmult_assoc.
  split; apply convex_in_range; try assumption; lra.
Qed.

Lemma network_update_rendered (w h : Z) (m : Network.Mouse)
      (n : Network.Node) :
  (0 <= w)%Z -> (0 <= h)%Z -> Pred.pointer_ok w h m ->
  Pred.rendered_in 20 w h n ->
  Pred.rendered_in 20 w h (Network.update w h m n).
Proof.
  intros Hw Hh Hm [Hx Hy].
  destruct (network_update_render w h m n) as [Ex Ey].
  destruct (network_update_inv w h m n Hw Hh) as [Ix Iy].
  cbn zeta in Ex, Ey.
  destruct (network_target_in_box w h m _ _ Hm (conj Ix Iy)) as [Tx Ty].
  unfold Pred.rendered_in, Pred.in_box; rewrite Ex, Ey.
  unfold Network.lerp, Network.LERP_RETURN.
  split; apply convex_in_range; try assumption; lra.
Qed.

Lemma network_handle_pointer (w h : Z) (e : Network.Event)
      (f : Network.Field) :
  Pred.event_ok w h e -> Pred.pointer_ok w h (Network.mouse f) ->
  Pred.pointer_ok w h (Network.mouse (Network.handle e f)).
Proof.
  unfold Pred.pointer_ok.
  destruct e as [cx cy| |[|[cx cy] ts]|]; cbn; intros He Hf Ha;
    try assumption; try discriminate; auto.
Qed.

Lemma network_events_pointer (w h : Z) (es : list Network.Event)
      (f : Network.Field) :
  Forall (Pred.event_ok w h) es -> Pred.pointer_ok w h (Network.mouse f) ->
  Pred.pointer_ok w h
    (Network.mouse (fold_left (fun g e => Network.handle e g) es f)).
Proof.
  intros Hes; revert f; induction Hes as [|e es He _ IH]; intros f Hf;
    cbn [fold_left]; [exact Hf|].
  apply IH; now apply network_handle_pointer.
Qed.

Lemma network_run_rendered (w h : Z) (frames : list (list Network.Event)) :
  (0 <= w)%Z -> (0 <= h)%Z ->
  Forall (Forall (Pred.event_ok w h)) frames ->
  forall f : Network.Field,
    Network.W f = w -> Network.H f = h ->
    Pred.pointer_ok w h (Network.mouse f) ->
    Forall (Pred.rendered_in 20 w h) (Network.nodes f) ->
    Forall (Pred.rendered_in 20 w h) (Network.nodes (Network.run frames f)).
Proof.
  intros Hw Hh Hfr.
  induction Hfr as [|es frames Hes _ IH]; intros f Dw Dh Hm Hn;
    cbn [Network.run]; [exact Hn|].
  destruct (network_events_dims es f) as [Ew Eh].
  pose proof (network_events_nodes es f) as En.
  pose proof (network_events_pointer _ _ es f Hes Hm) as Hp.
  set (g := fold_left (fun g e => Network.handle e g) es f) in *.
  apply IH; cbn [Network.animate fst Network.W Network.H Network.mouse
                 Network.nodes]; try congruence; try assumption.
  rewrite Ew, Eh, En, Dw, Dh.
  apply Forall_forall; intros n' Hin.
  apply in_map_iff in Hin; destruct Hin as [n [<- Hin]].
  apply network_update_rendered; try assumption.
  rewrite Forall_forall in Hn; now apply Hn.
Qed.

(** X4. Nodes of the network are never rendered far off screen.  If every
    pointer position the events report lies in the viewport enlarged by the
    wrap margin of 20, then a frame keeps every rendered position in that
    enlarged viewport, and so does any run of frames with such events in
    between; the nodes of a fresh seeding start inside it. *)
Theorem network_rendered_stays_in_box
        (frames : list (list Network.Event)) (f : Network.Field) :
  (0 <= Network.W f)%Z -> (0 <= Network.H f)%Z ->
  Pred.pointer_ok (Network.W f) (Network.H f) (Network.mouse f) ->
  Forall (Forall (Pred.event_ok (Network.W f) (Network.H f))) frames ->
  (Forall (Pred.rendered_in 20 (Network.W f) (Network.H f)) (Network.nodes f) ->
   Forall (Pred.rendered_in 20 (Network.W f) (Network.H f))
          (Network.nodes (Network.run frames f)))
  /\ (forall rand : JS.Random,
        JS.draws_ok rand ->
        Forall (Pred.rendered_in 20 (Network.W f) (Network.H f))
               (Network.nodes
                  (Network.run frames
                     (Network.resize rand (Network.W f) (Network.H f) f)))).
Proof.
  intros Hw Hh Hm Hfr; split.
  - now apply network_run_rendered.
  - intros rand Hr.
    apply (network_run_rendered (Network.W f) (Network.H f) frames Hw Hh Hfr
             (Network.resize rand (Network.W f) (Network.H f) f));
      try reflexivity; try assumption.
    cbn [Network.resize Network.nodes].
    eapply Forall_impl; [|apply seed_loop_inside; eassumption].
    intros n [_ [_ [Hx Hy]]]; split; lra.
Qed.

Lemma network_rendered_stays_in_box_witness :
  (0 <= 1920)%Z /\ (0 <= 1080)%Z
  /\ Pred.pointer_ok 1920 1080 Network.mouse0
  /\ Forall (Forall (Pred.event_ok 1920 1080))
            [[Network.MouseMove 960 540]; []]
  /\ JS.draws_ok (fun _ => 0.5)
  /\ Forall (Pred.rendered_in 20 1920 1080)
       (Network.nodes
          (Network.run [[Network.MouseMove 960 540]; []]
             (Network.resize (fun _ => 0.5) 1920 1080
                (Network.mkField [] Network.mouse0 1920 1080 0)))).
Proof.
  assert (Hw : (0 <= 1920)%Z) by lia.
  assert (Hh : (0 <= 1080)%Z) by lia.
  assert (Hm : Pred.pointer_ok 1920 1080 Network.mouse0)
    by (intros Ha; discriminate Ha).
  assert (He : Forall (Forall (Pred.event_ok 1920 1080))
                 [[Network.MouseMove 960 540]; []]).
  { repeat constructor; cbn; lra. }
  assert (Hr : JS.draws_ok (fun _ => 0.5)) by (intros k; lra).
  repeat (split; [assumption|]).
  apply (proj2 (network_rendered_stays_in_box
                  [[Network.MouseMove 960 540]; []]
                  (Network.mkField [] Network.mouse0 1920 1080 0)
                  Hw Hh Hm He) (fun _ => 0.5) Hr).
Defined.

(** ** What the network draws *)

Lemma node_edge_stroke (a b : Network.Node) (c : Cmd) :
  Network.node_edge a b = Some c ->
  exists op, c = Stroke (Network.x a) (Network.y a) (Network.x b) (Network.y b)
                        Network.LINE_BASE_COLOR op 0.6.
Proof.
  unfold Network.node_edge; destruct (JS.ltb _ _); [|discriminate].
  intros [= <-]; eexists; reflexivity.
Qed.

Lemma mouse_edge_stroke (m : Network.Mouse) (a : Network.Node) (c : Cmd) :
  Network.mouse_edge m a = Some c ->
  Network.active m = true
  /\ exists op, c = Stroke (Network.x a) (Network.y a)
                           (Network.mx m) (Network.my m)
                           Network.MOUSE_LINE_COLOR op 0.8.
Proof.
  unfold Network.mouse_edge; destruct (Network.active m); [|discriminate].
  destruct (JS.ltb _ _); [|discriminate].
  intros [= <-]; split; [reflexivity | eexists; reflexivity].
Qed.

Lemma pulse_range (t : R) (n : Network.Node) :
  0 <= Network.r n ->
  0.85 * Network.r n <= Network.pulsed_radius t n <= 1.15 * Network.r n.
Proof.
  intros Hr; unfold Network.pulsed_radius, JS.Math_sin.
  pose proof (SIN_bound (t * 2 + Network.phase n)) as [Hlo Hhi].
  split; nra.
Qed.

Lemma draw_node_dot (t : R) (m : Network.Mouse) (n : Network.Node)
      (cx cy rad : R) (c : Color) (al : R) :
  In (FillArc cx cy rad c al) (Network.draw_node t m n) ->
  cx = Network.x n /\ cy = Network.y n /\ rad = Network.pulsed_radius t n.
Proof.
  unfold Network.draw_node.
  destruct (Network.glows m n); cbn; intros H.
  - destruct H as [H | [H | []]]; [discriminate|].
    injection H as <- <- <- _ _; repeat split.
  - destruct H as [H | []].
    injection H as <- <- <- _ _; repeat split.
Qed.

(** X5. The pulse changes the drawn radius of a node by at most 15 per
    cent: the dot of a node of radius [r >= 0] is drawn with a radius in
    [0.85 r, 1.15 r].  In a field whose nodes have seeded radii, so after a
    seeding and any run of frames, every dot of a frame has a radius in
    [0.85, 2.53). *)
Theorem network_pulse_within_15_percent :
  (forall (t : R) (n : Network.Node),
     0 <= Network.r n ->
     0.85 * Network.r n <= Network.pulsed_radius t n <= 1.15 * Network.r n)
  /\ (forall (g : Network.Field) (cx cy rad : R) (c : Color) (al : R),
        Forall Pred.seeded (map Network.fixed_part (Network.nodes g)) ->
        In (FillArc cx cy rad c al) (snd (Network.animate g)) ->
        0.85 <= rad < 2.53).
Proof.
  split; [exact pulse_range|].
  intros g cx cy rad c al Hs Hin.
  cbn [Network.animate snd] in Hin.
  destruct Hin as [Hin | Hin]; [discriminate|].
  rewrite !in_app_iff in Hin; destruct Hin as [Hin | [Hin | Hin]].
  - apply draw_edges_spec in Hin.
    destruct Hin as [(i & j & a & b & _ & _ & _ & He) | (a & _ & He)].
    + apply node_edge_stroke in He; destruct He as [op He]; discriminate.
    + apply mouse_edge_stroke in He; destruct He as [_ [op He]]; discriminate.
  - apply in_flat_map in Hin; destruct Hin as [n' [Hn' Hin]].
    apply draw_node_dot in Hin; destruct Hin as [_ [_ ->]].
    apply in_map_iff in Hn'; destruct Hn' as [n [<- Hn]].
    rewrite Forall_forall in Hs.
    specialize (Hs (Network.fixed_part n) (in_map _ _ _ Hn)).
    unfold Pred.seeded, Network.fixed_part in Hs.
    destruct Hs as [_ [_ [Hr _]]].
    unfold Network.NODE_MIN_R, Network.NODE_MAX_R in Hr.
    pose proof (network_update_fixed (Network.W g) (Network.H g)
                  (Network.mouse g) n) as Hf.
    unfold Network.fixed_part in Hf; injection Hf as _ _ Er _.
    pose proof (pulse_range (Network.t g + 0.008)
                  (Network.update (Network.W g) (Network.H g)
                     (Network.mouse g) n)) as Hp.
    rewrite Er in Hp; specialize (Hp ltac:(lra)); lra.
  - unfold Network.draw_hub in Hin.
    destruct (Network.active (Network.mouse g)); [|destruct Hin].
    destruct Hin as [Hin | []]; discriminate.
Qed.

Lemma network_pulse_within_15_percent_witness :
  0 <= Network.r Sample.node_a
  /\ 0.85 * Network.r Sample.node_a
     <= Network.pulsed_radius 0 Sample.node_a
     <= 1.15 * Network.r Sample.node_a.
Proof.
  assert (Hr : 0 <= Network.r Sample.node_a) by (cbn; lra).
  split; [exact Hr|].
  apply (proj1 network_pulse_within_15_percent 0 Sample.node_a Hr).
Defined.



Lemma glows_iff (m : Network.Mouse) (n : Network.Node) :
  Network.glows m n = true
  <-> Network.active m = true
      /\ euclid (Network.x n) (Network.y n) (Network.mx m) (Network.my m)
         < 150.
Proof.
  unfold Network.glows, Network.MOUSE_CONNECT_DIST.
  rewrite network_dist_euclid.
  destruct (Network.active m).
  - rewrite ltb_true; split; [intros H; split; [reflexivity|lra] | intros [_ H]; lra].
  - split; [discriminate | intros [H _]; discriminate].
Qed.

(** X7. A node is drawn in the brand colour, with a halo of five times its
    drawn radius, exactly when the pointer is active and nearer than 150
    (0.6 of [MOUSE_CONNECT_DIST]) to its rendered position; otherwise it is
    one silver dot.  Every node that glows has an edge to the pointer, of
    opacity above 0.22. *)
Theorem network_glow_has_pointer_edge (t : R) (m : Network.Mouse)
        (n : Network.Node) :
  let dm := euclid (Network.x n) (Network.y n) (Network.mx m) (Network.my m) in
  let r' := Network.pulsed_radius t n in
  (Network.glows m n = true <-> Network.active m = true /\ dm < 150)
  /\ (Network.glows m n = true ->
        Network.draw_node t m n
        = [FillGradient (Network.x n) (Network.y n) (r' * 5)
                        (Rgb 225 112 68) 0.25;
           FillArc (Network.x n) (Network.y n) r' (Rgb 225 112 68) 0.9]
        /\ exists op,
             Network.mouse_edge m n
             = Some (Stroke (Network.x n) (Network.y n)
                            (Network.mx m) (Network.my m)
                            Network.MOUSE_LINE_COLOR op 0.8)
             /\ 0.22 < op <= 0.55)
  /\ (Network.glows m n = false ->
        Network.draw_node t m n
        = [FillArc (Network.x n) (Network.y n) r' (Rgb 180 180 195) 0.7]).
Proof.
  intros dm r'; split; [apply glows_iff | split].
  - intros Hg; split.
    + unfold Network.draw_node; now rewrite Hg.
    + apply glows_iff in Hg; destruct Hg as [Ha Hd]; fold dm in Hd.
      exists ((1 - dm / Network.MOUSE_CONNECT_DIST) * 0.55); split.
      * unfold Network.mouse_edge; rewrite Ha, network_dist_euclid; fold dm.
        assert (Hlt : JS.ltb dm Network.MOUSE_CONNECT_DIST = true)
          by (apply ltb_true; unfold Network.MOUSE_CONNECT_DIST; lra).
        now rewrite Hlt.
      * pose proof (euclid_nonneg (Network.x n) (Network.y n)
                                  (Network.mx m) (Network.my m)) as Hn.
        fold dm in Hn; clearbody dm.
        unfold Network.MOUSE_CONNECT_DIST; lra.
  - intros Hg; unfold Network.draw_node; now rewrite Hg.
Qed.

Lemma network_glow_has_pointer_edge_witness :
  Network.glows (Network.mkMouse 0 0 true) Sample.node_a = true
  /\ Network.draw_node 0 (Network.mkMouse 0 0 true) Sample.node_a
     = [FillGradient 0 0 (Network.pulsed_radius 0 Sample.node_a * 5)
                     (Rgb 225 112 68) 0.25;
        FillArc 0 0 (Network.pulsed_radius 0 Sample.node_a)
                (Rgb 225 112 68) 0.9].
Proof.
  assert (Hg : Network.glows (Network.mkMouse 0 0 true) Sample.node_a = true).
  { apply glows_iff; split; [reflexivity|].
    cbn [Sample.node_a Network.x Network.y Network.mx Network.my].
    rewrite euclid_self; lra. }
  split; [exact Hg|].
  apply (proj1 (proj1 (proj2 (network_glow_has_pointer_edge 0
                  (Network.mkMouse 0 0 true) Sample.node_a)) Hg)).
Defined.






Lemma pair_edges_length (a : Network.Node) (rest : list Network.Node) :
  (List.length (flat_map (fun b => JS.emit (Network.node_edge a b)) rest)
   <= List.length rest)%nat.
Proof.
  induction rest as [|b rest IH]; cbn [flat_map List.length]; [lia|].
  rewrite length_app.
  destruct (Network.node_edge a b); cbn [JS.emit List.length]; lia.
Qed.

(** X9. The interaction pass of the network strokes at most one edge per
    unordered pair of nodes and one per node to the pointer: for [n] nodes a
    frame has at most [n (n - 1) / 2 + n] edges, and at most [n (n - 1) / 2]
    while the pointer is inactive. *)
Theorem network_edge_count (m : Network.Mouse) (ns : list Network.Node) :
  (2 * List.length (Network.draw_edges m ns)
   <= List.length ns * (List.length ns + 1))%nat
  /\ (Network.active m = false ->
        (2 * List.length (Network.draw_edges m ns) + 2 * List.length ns
         <= List.length ns * (List.length ns + 1))%nat).
Proof.
  split.
  - induction ns as [|a rest IH]; cbn [Network.draw_edges List.length];
      [lia|].
    rewrite !length_app.
    pose proof (pair_edges_length a rest) as Hp.
    assert (Hm : (List.length (JS.emit (Network.mouse_edge m a)) <= 1)%nat)
      by (destruct (Network.mouse_edge m a); cbn; lia).
    nia.
  - intros Ha.
    induction ns as [|a rest IH]; cbn [Network.draw_edges List.length];
      [lia|].
    rewrite !length_app.
    pose proof (pair_edges_length a rest) as Hp.
    assert (Hm : List.length (JS.emit (Network.mouse_edge m a)) = 0%nat)
      by (unfold Network.mouse_edge; now rewrite Ha).
    nia.
Qed.

Lemma network_edge_count_witness :
  Network.active Network.mouse0 = false
  /\ (2 * List.length
            (Network.draw_edges Network.mouse0 [Sample.node_a; Sample.node_b])
      + 2 * 2 <= 2 * (2 + 1))%nat.
Proof.
  split; [reflexivity|].
  apply (proj2 (network_edge_count Network.mouse0
                  [Sample.node_a; Sample.node_b]) eq_refl).
Defined.

(** ** The repulsion seeder *)

Lemma init_loop_length (rand : JS.Random) (k count : nat) (w h : Z) :
  List.length (Repulsion.init_loop rand k count w h) = count.
Proof.
  revert k; induction count as [|count IH]; intros k;
    cbn [Repulsion.init_loop List.length]; [reflexivity | now rewrite IH].
Qed.

(** X10. The repulsion field has [floor (width / 1000 * 80)] particles,
    with no minimum: within one of [0.08 * width], none at all for a
    viewport narrower than 13 pixels, never fewer for a wider viewport, and
    independent of the height. *)
Theorem repulsion_particle_count (w : Z) :
  (0 <= w)%Z ->
  (0.08 * IZR w - 1 < IZR (Repulsion.particle_count w) <= 0.08 * IZR w)
  /\ ((w <= 12)%Z -> Repulsion.particle_count w = 0%Z)
  /\ (forall w' : Z,
        (w <= w')%Z ->
        (Repulsion.particle_count w <= Repulsion.particle_count w')%Z)
  /\ (forall (rand : JS.Random) (h : Z),
        List.length (Repulsion.initParticles rand w h)
        = Z.to_nat (Repulsion.particle_count w)).
Proof.
  intros Hw; apply IZR_le in Hw.
  split; [|split; [|split]];
    [| | | intros rand h; apply init_loop_length];
    unfold Repulsion.particle_count, JS.Math_floor,
      Repulsion.PARTICLE_COUNT_FACTOR.
  - pose proof (Zfloor_bound (IZR w / 1000 * 80)) as Hb; lra.
  - intros H12; apply IZR_le in H12.
    apply Zfloor_eq; lra.
  - intros w' Hle; apply IZR_le in Hle.
    apply Zfloor_le; lra.
Qed.

Lemma repulsion_particle_count_witness :
  (0 <= 1920)%Z
  /\ 0.08 * IZR 1920 - 1 < IZR (Repulsion.particle_count 1920)
     <= 0.08 * IZR 1920.
Proof.
  assert (Hw : (0 <= 1920)%Z) by lia.
  split; [exact Hw|].
  apply (proj1 (repulsion_particle_count 1920 Hw)).
Defined.

Lemma palette_index (u : R) :
  0 <= u < 1 ->
  In (nth (Z.to_nat (JS.Math_floor (u * INR (List.length Repulsion.COLORS))))
          Repulsion.COLORS EmptyString)
     Repulsion.COLORS.
Proof.
  intros Hu; apply nth_In.
  change (INR (List.length Repulsion.COLORS)) with (INR 4).
  change (List.length Repulsion.COLORS) with 4%nat.
  replace (INR 4) with 4 by (simpl; lra).
  unfold JS.Math_floor.
  pose proof (Zfloor_bound (u * 4)) as Hb.
  assert (H0 : (0 <= Zfloor (u * 4))%Z) by (apply Zfloor_lub; lra).
  assert (H4 : (Zfloor (u * 4) < 4)%Z) by (apply lt_IZR; lra).
  lia.
Qed.

Lemma init_loop_seeded (rand : JS.Random) (k count : nat) (w h : Z) :
  JS.draws_ok rand ->
  Forall Pred.seeded_particle
         (map Repulsion.fixed_part (Repulsion.init_loop rand k count w h)).
Proof.
  intros Hr; revert k; induction count as [|count IH]; intros k;
    cbn [Repulsion.init_loop map]; constructor; [|apply IH].
  pose proof (Hr (k + 2)%nat) as H2; pose proof (Hr (k + 3)%nat) as H3.
  pose proof (Hr (k + 4)%nat) as H4; pose proof (Hr (k + 6)%nat) as H6.
  unfold Pred.seeded_particle, Repulsion.fixed_part;
    cbn [Repulsion.vx Repulsion.vy Repulsion.radius Repulsion.color
         Repulsion.alpha].
  unfold Repulsion.DRIFT_SPEED.
  split; [lra | split; [lra | split; [lra | split; [|lra]]]].
  apply palette_index, Hr.
Qed.

Lemma init_loop_inside (rand : JS.Random) (k count : nat) (w h : Z) :
  JS.draws_ok rand -> (0 <= w)%Z -> (0 <= h)%Z ->
  Forall (fun p => Repulsion.x p = Repulsion.baseX p
                   /\ Repulsion.y p = Repulsion.baseY p
                   /\ 0 <= Repulsion.x p <= IZR w
                   /\ 0 <= Repulsion.y p <= IZR h)
         (Repulsion.init_loop rand k count w h).
Proof.
  intros Hr Hw Hh; apply IZR_le in Hw, Hh.
  revert k; induction count as [|count IH]; intros k;
    cbn [Repulsion.init_loop]; constructor; [|apply IH].
  pose proof (Hr k) as Hk; pose proof (Hr (k + 1)%nat) as Hk1.
  cbn [Repulsion.x Repulsion.y Repulsion.baseX Repulsion.baseY].
  repeat split; nra.
Qed.

(** X11. Whatever numbers in [0, 1) the random source draws, every particle
    of the repulsion seeder starts on its home position inside the
    viewport, with velocity components in [-DRIFT_SPEED, DRIFT_SPEED), a
    radius in [1, 3.5), an alpha in [0.2, 0.8) and a colour that is one of
    the four of [COLORS]: the palette index never runs out of range. *)
Theorem repulsion_seed_ranges (rand : JS.Random) (w h : Z) :
  JS.draws_ok rand -> (0 <= w)%Z -> (0 <= h)%Z ->
  Forall Pred.seeded_particle
         (map Repulsion.fixed_part (Repulsion.initParticles rand w h))
  /\ Forall (fun p => Repulsion.x p = Repulsion.baseX p
                      /\ Repulsion.y p = Repulsion.baseY p
                      /\ 0 <= Repulsion.x p <= IZR w
                      /\ 0 <= Repulsion.y p <= IZR h)
            (Repulsion.initParticles rand w h).
Proof.
  intros Hr Hw Hh; split.
  - now apply init_loop_seeded.
  - now apply init_loop_inside.
Qed.

Lemma repulsion_seed_ranges_witness :
  JS.draws_ok (fun _ => 0.5) /\ (0 <= 1920)%Z /\ (0 <= 1080)%Z
  /\ Forall Pred.seeded_particle
       (map Repulsion.fixed_part
            (Repulsion.initParticles (fun _ => 0.5) 1920 1080)).
Proof.
  assert (Hr : JS.draws_ok (fun _ => 0.5)) by (intros k; lra).
  assert (Hw : (0 <= 1920)%Z) by lia.
  assert (Hh : (0 <= 1080)%Z) by lia.
  split; [exact Hr | split; [exact Hw | split; [exact Hh|]]].
  apply (proj1 (repulsion_seed_ranges (fun _ => 0.5) 1920 1080 Hr Hw Hh)).
Defined.

(** ** Where the repulsion pushes *)

Lemma euclid_ge_dy (ax ay bx by_ : R) : Rabs (ay - by_) <= euclid ax ay bx by_.
Proof.
  replace (euclid ax ay bx by_) with (euclid ay ax by_ bx)
    by (unfold euclid; f_equal; ring).
  apply euclid_ge_dx.
Qed.

Lemma unit_component (u d : R) : 0 < d -> Rabs u <= d -> Rabs (u / d) <= 1.
Proof.
  intros Hd Hu; unfold Rdiv.
  rewrite Rabs_mult, (Rabs_pos_eq (/ d))
    by (apply Rlt_le, Rinv_0_lt_compat; lra).
  apply Rmult_le_reg_r with d; [lra|].
  rewrite Rmult_assoc, Rinv_l, Rmult_1_r, Rmult_1_l by lra; exact Hu.
Qed.

(** The push moves the target by less than 120 on each axis. *)
Lemma repulsion_push_axes (m : Repulsion.Mouse) (a b : R) :
  let d := euclid a b (Repulsion.mx m) (Repulsion.my m) in
  0 < d < Repulsion.MOUSE_RADIUS ->
  exists tg,
    Repulsion.target m a b = Some tg
    /\ Rabs (fst tg - a) < 120 /\ Rabs (snd tg - b) < 120.
Proof.
  intros d Hd.
  pose proof (repulsion_force_range d Hd) as HF.
  rewrite (repulsion_target_near m a b Hd); fold d.
  set (F := Repulsion.force d * Repulsion.MOUSE_RADIUS * 0.1) in *.
  eexists; split; [reflexivity|]; cbn [fst snd].
  pose proof (unit_component (a - Repulsion.mx m) d (proj1 Hd)
                (euclid_ge_dx a b (Repulsion.mx m) (Repulsion.my m))) as Ax.
  pose proof (unit_component (b - Repulsion.my m) d (proj1 Hd)
                (euclid_ge_dy a b (Repulsion.mx m) (Repulsion.my m))) as Ay.
  split.
  - replace (a + (a - Repulsion.mx m) / d * Repulsion.force d
                 * Repulsion.MOUSE_RADIUS * 0.1 - a)
      with ((a - Repulsion.mx m) / d * F) by (unfold F; ring).
    rewrite Rabs_mult, (Rabs_pos_eq F) by lra.
    apply Rle_lt_trans with (1 * F); [|lra].
    apply Rmult_le_compat_r; [lra | exact Ax].
  - replace (b + (b - Repulsion.my m) / d * Repulsion.force d
                 * Repulsion.MOUSE_RADIUS * 0.1 - b)
      with ((b - Repulsion.my m) / d * F) by (unfold F; ring).
    rewrite Rabs_mult, (Rabs_pos_eq F) by lra.
    apply Rle_lt_trans with (1 * F); [|lra].
    apply Rmult_le_compat_r; [lra | exact Ay].
Qed.

(** X12. In the repulsion field a pointer at distance [d], with
    [0 < d < MOUSE_RADIUS], from a home position pushes the target straight
    away from the pointer: the target is [d + push] from the pointer, which
    is [120 + 0.2 d], between 120 and 150.  The target never leaves the
    repulsion radius, and it is displaced by less than 120 on each axis. *)
Theorem repulsion_target_lands_inside_radius (m : Repulsion.Mouse) (a b : R) :
  let d := euclid a b (Repulsion.mx m) (Repulsion.my m) in
  0 < d < Repulsion.MOUSE_RADIUS ->
  exists tg,
    Repulsion.target m a b = Some tg
    /\ euclid (fst tg) (snd tg) (Repulsion.mx m) (Repulsion.my m)
       = d + euclid (fst tg) (snd tg) a b
    /\ euclid (fst tg) (snd tg) (Repulsion.mx m) (Repulsion.my m)
       = 120 + 0.2 * d
    /\ 120 < euclid (fst tg) (snd tg) (Repulsion.mx m) (Repulsion.my m)
       < Repulsion.MOUSE_RADIUS
    /\ Rabs (fst tg - a) < 120 /\ Rabs (snd tg - b) < 120.
Proof.
  intros d Hd.
  pose proof (repulsion_force_range d Hd) as HF.
  pose proof (repulsion_push_near m a b Hd) as Hp; fold d in Hp.
  destruct (repulsion_push_axes m a b Hd) as [tg [Et Hax]].
  unfold Repulsion.push in Hp; rewrite Et in Hp.
  cbn [JS.bind] in Hp; injection Hp as Hp.
  exists tg; split; [exact Et|].
  rewrite (repulsion_target_near m a b Hd) in Et; fold d in Et.
  injection Et as <-.
  set (F := Repulsion.force d * Repulsion.MOUSE_RADIUS * 0.1) in *.
  cbn [fst snd] in Hp, Hax |- *.
  assert (E : euclid (a + (a - Repulsion.mx m) / d * Repulsion.force d
                          * Repulsion.MOUSE_RADIUS * 0.1)
                     (b + (b - Repulsion.my m) / d * Repulsion.force d
                          * Repulsion.MOUSE_RADIUS * 0.1)
                     (Repulsion.mx m) (Repulsion.my m) = d + F).
  { unfold euclid.
    replace (a + (a - Repulsion.mx m) / d * Repulsion.force d
                 * Repulsion.MOUSE_RADIUS * 0.1 - Repulsion.mx m)
      with ((1 + F / d) * (a - Repulsion.mx m)) by (unfold F; field; lra).
    replace (b + (b - Repulsion.my m) / d * Repulsion.force d
                 * Repulsion.MOUSE_RADIUS * 0.1 - Repulsion.my m)
      with ((1 + F / d) * (b - Repulsion.my m)) by (unfold F; field; lra).
    rewrite sqrt_scaled.
    - change (sqrt _) with d; field; lra.
    - assert (0 < F / d) by (apply Rdiv_lt_0_compat; lra); lra. }
  assert (EF : F = 120 - 0.8 * d).
  { unfold F, Repulsion.force, Repulsion.MOUSE_RADIUS,
      Repulsion.REPULSION_STRENGTH; lra. }
  rewrite E, Hp.
  split; [reflexivity|].
  split; [lra|].
  split; [unfold Repulsion.MOUSE_RADIUS in *; lra | exact Hax].
Qed.

Lemma repulsion_target_lands_inside_radius_witness :
  0 < euclid 0 0 75 0 < Repulsion.MOUSE_RADIUS
  /\ exists tg,
       Repulsion.target (Repulsion.mkMouse 75 0) 0 0 = Some tg
       /\ euclid (fst tg) (snd tg) 75 0 = 120 + 0.2 * euclid 0 0 75 0.
Proof.
  assert (Hd : 0 < euclid 0 0 75 0 < Repulsion.MOUSE_RADIUS).
  { rewrite euclid_on_axis by lra; unfold Repulsion.MOUSE_RADIUS; lra. }
  split; [exact Hd|].
  destruct (repulsion_target_lands_inside_radius (Repulsion.mkMouse 75 0) 0 0
              Hd) as [tg [Et [_ [E _]]]].
  exists tg; split; [exact Et | exact E].
Defined.

(** ** Rendered positions and population of the repulsion field *)

Lemma repulsion_target_shift (m : Repulsion.Mouse) (a b : R) :
  exists tg, Repulsion.target m a b = Some tg
    /\ Rabs (fst tg - a) < 120 /\ Rabs (snd tg - b) < 120.
Proof.
  pose proof (euclid_nonneg a b (Repulsion.mx m) (Repulsion.my m)) as Hn.
  destruct (Rlt_dec (euclid a b (Repulsion.mx m) (Repulsion.my m))
                    Repulsion.MOUSE_RADIUS) as [Hlt | Hge];
    [destruct (Req_dec_T (euclid a b (Repulsion.mx m) (Repulsion.my m)) 0)
       as [Hz | Hnz]|].
  - exists (a, b); split; [apply repulsion_target_off; now left|].
    cbn [fst snd]; rewrite !Rminus_diag, Rabs_R0; lra.
  - apply repulsion_push_axes; lra.
  - exists (a, b); split; [apply repulsion_target_off; right; lra|].
    cbn [fst snd]; rewrite !Rminus_diag, Rabs_R0; lra.
Qed.

Lemma repulsion_update_rendered (w h : Z) (m : Repulsion.Mouse)
      (p p' : Repulsion.Particle) :
  (0 <= w)%Z -> (0 <= h)%Z ->
  Repulsion.update w h m p = Some p' ->
  Pred.particle_in 130 w h p -> Pred.particle_in 130 w h p'.
Proof.
  intros Hw Hh Hu [Hx Hy].
  destruct (repulsion_update_total w h m p) as [tg [Et Eu]].
  rewrite Eu in Hu; injection Hu as <-.
  destruct (repulsion_target_shift m
              (Repulsion.wrap (Repulsion.baseX p + Repulsion.vx p) w)
              (Repulsion.wrap (Repulsion.baseY p + Repulsion.vy p) h))
    as [tg' [Et' [Sx Sy]]].
  rewrite Et in Et'; injection Et' as <-.
  pose proof (repulsion_wrap_range w (Repulsion.baseX p + Repulsion.vx p) Hw)
    as Wx.
  pose proof (repulsion_wrap_range h (Repulsion.baseY p + Repulsion.vy p) Hh)
    as Wy.
  apply Rabs_def2 in Sx, Sy.
  unfold Pred.particle_in, Pred.in_box; cbn [Repulsion.x Repulsion.y].
  unfold Repulsion.lerp, Repulsion.LERP_SPEED.
  split; apply convex_in_range; try assumption; lra.
Qed.

Lemma repulsion_frame_rendered (w h : Z) (m : Repulsion.Mouse)
      (ps ps' : list Repulsion.Particle) :
  (0 <= w)%Z -> (0 <= h)%Z ->
  Forall2 (fun p p' => Repulsion.update w h m p = Some p') ps ps' ->
  Forall (Pred.particle_in 130 w h) ps ->
  Forall (Pred.particle_in 130 w h) ps'.
Proof.
  intros Hw Hh F; induction F as [|p p' ps ps' Hu _ IH]; intros Hp;
    constructor; inversion Hp as [|? ? Hp1 Hp2].
  - now apply (repulsion_update_rendered w h m p).
  - now apply IH.
Qed.

Lemma repulsion_run_state (w h : Z) (frames : list (list Repulsion.Event)) :
  (0 <= w)%Z -> (0 <= h)%Z ->
  forall f : Repulsion.Field,
    Repulsion.width f = w -> Repulsion.height f = h ->
    Forall (Pred.particle_in 130 w h) (Repulsion.particles f) ->
    exists f', Repulsion.run frames f = Some f'
      /\ Repulsion.width f' = w /\ Repulsion.height f' = h
      /\ Forall (Pred.particle_in 130 w h) (Repulsion.particles f').
Proof.
  intros Hw Hh; induction frames as [|es frames IH]; intros f Dw Dh Hp;
    cbn [Repulsion.run].
  - exists f; now repeat split.
  - destruct (repulsion_events_dims es f) as [Ew Eh].
    pose proof (repulsion_events_particles es f) as Ep.
    set (g := fold_left (fun g e => Repulsion.handle e g) es f) in *.
    destruct (repulsion_animate_total g) as [ps' [E F]].
    rewrite E; cbn [JS.bind fst]; apply IH; cbn [Repulsion.width
      Repulsion.height Repulsion.particles]; try congruence.
    rewrite Ep, Ew, Eh, Dw, Dh in F.
    now apply (repulsion_frame_rendered w h (Repulsion.mouse g)
                 (Repulsion.particles f)).
Qed.

(** X13. Particles of the repulsion field are never rendered far off
    screen, wherever the pointer is: a frame keeps every rendered position
    within 130 of the viewport on each axis (the wrap margin of 10 plus the
    largest push of 120), and so does any run of frames after a seeding,
    whatever events arrive in between. *)
Theorem repulsion_rendered_stays_in_box (w h : Z) :
  (0 <= w)%Z -> (0 <= h)%Z ->
  (forall (m : Repulsion.Mouse) (p : Repulsion.Particle),
     Pred.particle_in 130 w h p ->
     exists p', Repulsion.update w h m p = Some p'
       /\ Pred.particle_in 130 w h p')
  /\ (forall (rand : JS.Random) (frames : list (list Repulsion.Event))
             (f : Repulsion.Field),
        JS.draws_ok rand ->
        exists f', Repulsion.run frames (Repulsion.resize rand w h f) = Some f'
          /\ Forall (Pred.particle_in 130 w h) (Repulsion.particles f')).
Proof.
  intros Hw Hh; split.
  - intros m p Hp.
    destruct (repulsion_update_total w h m p) as [tg [_ Eu]].
    eexists; split; [exact Eu|].
    now apply (repulsion_update_rendered w h m p).
  - intros rand frames f Hr.
    destruct (repulsion_run_state w h frames Hw Hh
                (Repulsion.resize rand w h f) eq_refl eq_refl)
      as [f' [E [_ [_ F]]]].
    + cbn [Repulsion.resize Repulsion.particles].
      eapply Forall_impl; [|apply init_loop_inside; eassumption].
      intros p [_ [_ [Hx Hy]]]; split; lra.
    + now exists f'.
Qed.

Lemma repulsion_rendered_stays_in_box_witness :
  (0 <= 1920)%Z /\ (0 <= 1080)%Z /\ JS.draws_ok (fun _ => 0.5)
  /\ exists f',
       Repulsion.run [[Repulsion.MouseMove 960 540]; []]
         (Repulsion.resize (fun _ => 0.5) 1920 1080 Repulsion.field0)
       = Some f'
       /\ Forall (Pred.particle_in 130 1920 1080) (Repulsion.particles f').
Proof.
  assert (Hw : (0 <= 1920)%Z) by lia.
  assert (Hh : (0 <= 1080)%Z) by lia.
  assert (Hr : JS.draws_ok (fun _ => 0.5)) by (intros k; lra).
  split; [exact Hw | split; [exact Hh | split; [exact Hr|]]].
  apply (proj2 (repulsion_rendered_stays_in_box 1920 1080 Hw Hh)
           (fun _ => 0.5) [[Repulsion.MouseMove 960 540]; []]
           Repulsion.field0 Hr).
Defined.

(** X14. A frame of the repulsion field clears the canvas and then fills
    exactly one disc per particle, in the order of the collection, at the
    particle's new rendered position with the particle's own radius, colour
    and alpha.  Between two resizes the population is constant: after a
    resize and any run of frames with events in between there are exactly
    [floor (width / 1000 * 80)] particles, each with velocity, radius,
    colour and alpha in the seeder's ranges and its home position within
    the wrap margin. *)
Theorem repulsion_population_and_frame :
  (forall f : Repulsion.Field,
     exists out, Repulsion.animate f = Some out
       /\ snd out
          = ClearRect (IZR (Repulsion.width f)) (IZR (Repulsion.height f))
            :: map Repulsion.draw (Repulsion.particles (fst out))
       /\ List.length (Repulsion.particles (fst out))
          = List.length (Repulsion.particles f))
  /\ (forall (rand : JS.Random) (w h : Z)
             (frames : list (list Repulsion.Event)) (f : Repulsion.Field),
        JS.draws_ok rand -> (0 <= w)%Z -> (0 <= h)%Z ->
        exists f', Repulsion.run frames (Repulsion.resize rand w h f) = Some f'
          /\ List.length (Repulsion.particles f')
             = Z.to_nat (Repulsion.particle_count w)
          /\ Forall Pred.seeded_particle
                    (map Repulsion.fixed_part (Repulsion.particles f'))
          /\ Forall (Repulsion.home_inv w h) (Repulsion.particles f')).
Proof.
  split.
  - intros f; destruct (repulsion_animate_total f) as [ps' [E F]].
    eexists; split; [exact E|]; cbn [fst snd Repulsion.particles].
    split; [reflexivity|].
    symmetry; eapply Forall2_length; exact F.
  - intros rand w h frames f Hr Hw Hh.
    destruct (repulsion_run_fixed frames (Repulsion.resize rand w h f))
      as [f' [E Hfix]].
    cbn [Repulsion.resize Repulsion.particles] in Hfix.
    exists f'; split; [exact E|].
    split; [|split].
    + rewrite <- (length_map Repulsion.fixed_part), Hfix, length_map.
      apply init_loop_length.
    + rewrite Hfix; now apply init_loop_seeded.
    + destruct frames as [|es frames].
      * cbn [Repulsion.run] in E; injection E as <-.
        cbn [Repulsion.resize Repulsion.particles].
        eapply Forall_impl; [|apply init_loop_inside; eassumption].
        intros p [Ex [Ey [Hx Hy]]]; unfold Repulsion.home_inv.
        rewrite <- Ex, <- Ey; lra.
      * destruct (repulsion_run_inv (es :: frames)
                    (Repulsion.resize rand w h f)) as [f'' [E' F]];
          [discriminate | exact Hw | exact Hh |].
        rewrite E in E'; injection E' as <-; exact F.
Qed.

Lemma repulsion_population_and_frame_witness :
  JS.draws_ok (fun _ => 0.5) /\ (0 <= 1920)%Z /\ (0 <= 1080)%Z
  /\ exists f',
       Repulsion.run [[]; [Repulsion.MouseMove 960 540]; [Repulsion.TouchEnd]]
         (Repulsion.resize (fun _ => 0.5) 1920 1080 Repulsion.field0)
       = Some f'
       /\ List.length (Repulsion.particles f')
          = Z.to_nat (Repulsion.particle_count 1920).
Proof.
  assert (Hr : JS.draws_ok (fun _ => 0.5)) by (intros k; lra).
  assert (Hw : (0 <= 1920)%Z) by lia.
  assert (Hh : (0 <= 1080)%Z) by lia.
  split; [exact Hr | split; [exact Hw | split; [exact Hh|]]].
  destruct (proj2 repulsion_population_and_frame (fun _ => 0.5)
              1920%Z 1080%Z
              [[]; [Repulsion.MouseMove 960 540]; [Repulsion.TouchEnd]]
              Repulsion.field0 Hr Hw Hh) as [f' [E [L _]]].
  exists f'; split; [exact E | exact L].
Defined.

(** ** The glow of the grid *)

Lemma grid_glow_spec (m : Grid.Point) (qx qy : R) :
  let d := euclid qx qy (Grid.px m) (Grid.py m) in
  (Grid.GLOW_RADIUS <= d -> Grid.glow m qx qy = None)
  /\ (d < Grid.GLOW_RADIUS ->
        Grid.glow m qx qy = Some (1 - d / Grid.GLOW_RADIUS)
        /\ 0 < 1 - d / Grid.GLOW_RADIUS <= 1).
Proof.
  intros d; unfold Grid.glow, JS.Math_sqrt; change (sqrt _) with d.
  split; intros Hd.
  - apply ltb_false in Hd; now rewrite Hd.
  - pose proof Hd as Hlt; apply ltb_true in Hlt; rewrite Hlt.
    split; [reflexivity|].
    pose proof (euclid_nonneg qx qy (Grid.px m) (Grid.py m)) as Hn.
    fold d in Hn; clearbody d; unfold Grid.GLOW_RADIUS in *; lra.
Qed.

Lemma grid_glow_some (m : Grid.Point) (qx qy i : R) :
  Grid.glow m qx qy = Some i -> 0 < i <= 1.
Proof.
  destruct (grid_glow_spec m qx qy) as [Hfar Hnear].
  destruct (Rlt_dec (euclid qx qy (Grid.px m) (Grid.py m)) Grid.GLOW_RADIUS)
    as [Hlt | Hge].
  - destruct (Hnear Hlt) as [-> Hr]; now intros [= <-].
  - rewrite Hfar by lra; discriminate.
Qed.

Lemma grid_stroke_ok (i x1 y1 x2 y2 : R) :
  0 < i <= 1 ->
  Pred.grid_cmd_ok
    (Stroke x1 y1 x2 y2 Grid.BRAND (i * i * 0.5) (0.8 + i * 0.8)).
Proof. intros Hi; cbn; repeat split; nra. Qed.

Lemma grid_vertical_ok (m : Grid.Point) (h : Z) (c : nat) :
  Forall Pred.grid_cmd_ok (Grid.vertical_line m h c).
Proof.
  unfold Grid.vertical_line; destruct (JS.ltb _ _); [|constructor].
  apply Forall_forall; intros cmd Hin.
  apply in_flat_map in Hin; destruct Hin as [s [_ Hin]].
  destruct (Grid.glow m _ _) as [i|] eqn:E; [|destruct Hin].
  destruct Hin as [<- | []].
  apply grid_stroke_ok; eapply grid_glow_some; exact E.
Qed.

Lemma grid_horizontal_ok (m : Grid.Point) (w : Z) (r : nat) :
  Forall Pred.grid_cmd_ok (Grid.horizontal_line m w r).
Proof.
  unfold Grid.horizontal_line; destruct (JS.ltb _ _); [|constructor].
  apply Forall_forall; intros cmd Hin.
  apply in_flat_map in Hin; destruct Hin as [s [_ Hin]].
  destruct (Grid.glow m _ _) as [i|] eqn:E; [|destruct Hin].
  destruct Hin as [<- | []].
  apply grid_stroke_ok; eapply grid_glow_some; exact E.
Qed.

Lemma grid_intersection_ok (m : Grid.Point) (c r : nat) :
  Forall Pred.grid_cmd_ok (Grid.intersection m c r).
Proof.
  unfold Grid.intersection.
  destruct (Grid.glow m _ _) as [i|] eqn:E; [|constructor].
  apply grid_glow_some in E.
  apply Forall_app; split.
  - destruct (JS.gtb i 0.3) eqn:G; [|constructor].
    apply gtb_true in G; constructor; [|constructor].
    cbn; unfold Grid.DOT_RADIUS; split; [reflexivity|].
    right; repeat split; nra.
  - constructor; [|constructor].
    cbn; unfold Grid.DOT_RADIUS; repeat split; nra.
Qed.

Lemma Forall_flat_map {A B : Type} (P : B -> Prop) (f : A -> list B)
      (l : list A) :
  (forall a, Forall P (f a)) -> Forall P (flat_map f l).
Proof.
  intros H; induction l as [|a l IH]; cbn [flat_map]; [constructor|].
  apply Forall_app; split; [apply H | exact IH].
Qed.

(** X15. Everything a grid frame draws is in the brand colour and in
    range: a glowing segment has an opacity in (0, 0.5] and a width in
    (0.8, 1.6], an intersection dot a radius in (2, 3.5] and an opacity in
    (0, 0.7], a halo a radius in (9.8, 14] and an opacity in (0.0252, 0.28],
    and the cursor hub the radius 66 and the opacity 0.06.  The glow
    intensity of a point at distance [d] from the smooth pointer is
    [1 - d / GLOW_RADIUS] below the glow radius, in (0, 1], and absent from
    the glow radius on. *)
Theorem grid_frame_in_range :
  (forall s : Grid.State, Forall Pred.grid_cmd_ok (snd (Grid.animate s)))
  /\ (forall (m : Grid.Point) (qx qy : R),
        let d := euclid qx qy (Grid.px m) (Grid.py m) in
        (Grid.GLOW_RADIUS <= d -> Grid.glow m qx qy = None)
        /\ (d < Grid.GLOW_RADIUS ->
              Grid.glow m qx qy = Some (1 - d / Grid.GLOW_RADIUS)
              /\ 0 < 1 - d / Grid.GLOW_RADIUS <= 1)).
Proof.
  split; [|exact grid_glow_spec].
  intros s; cbn [Grid.animate snd]; constructor; [exact I|].
  rewrite !Forall_app; repeat split.
  - apply Forall_flat_map; intros c; apply grid_vertical_ok.
  - apply Forall_flat_map; intros r; apply grid_horizontal_ok.
  - apply Forall_flat_map; intros c.
    apply Forall_flat_map; intros r; apply grid_intersection_ok.
  - unfold Grid.draw_hub; destruct (Grid.hub_drawn _ _); constructor;
      [|constructor].
    cbn; unfold Grid.GLOW_RADIUS; split; [reflexivity|].
    left; split; lra.
Qed.

Lemma grid_frame_in_range_witness :
  euclid 100 100 100 100 < Grid.GLOW_RADIUS
  /\ Grid.glow (Grid.mkPoint 100 100) 100 100
     = Some (1 - euclid 100 100 100 100 / Grid.GLOW_RADIUS).
Proof.
  assert (Hd : euclid 100 100 100 100 < Grid.GLOW_RADIUS)
    by (rewrite euclid_self; unfold Grid.GLOW_RADIUS; lra).
  split; [exact Hd|].
  apply (proj1 (proj2 (proj2 grid_frame_in_range (Grid.mkPoint 100 100)
                         100 100) Hd)).
Defined.

(** ** Grid lines *)

Lemma flat_map_length_le {A B : Type} (f : A -> list B) (l : list A) :
  (forall a, (List.length (f a) <= 1)%nat) ->
  (List.length (flat_map f l) <= List.length l)%nat.
Proof.
  intros H; induction l as [|a l IH]; cbn [flat_map List.length]; [lia|].
  rewrite length_app; specialize (H a); lia.
Qed.

(** X16. The test of a grid line against the pointer, made before its forty
    segments are looked at, loses nothing: a line whose distance to the
    smooth pointer is at least [GLOW_RADIUS] has no point that glows, so
    the segments that the test skips would not have been drawn.  A line
    gets at most forty strokes. *)
Theorem grid_line_test_is_sound (m : Grid.Point) :
  (forall qx qy : R,
     Grid.GLOW_RADIUS <= Rabs (qx - Grid.px m) -> Grid.glow m qx qy = None)
  /\ (forall qx qy : R,
        Grid.GLOW_RADIUS <= Rabs (qy - Grid.py m) -> Grid.glow m qx qy = None)
  /\ (forall (h : Z) (c : nat),
        (List.length (Grid.vertical_line m h c) <= 40)%nat)
  /\ (forall (w : Z) (r : nat),
        (List.length (Grid.horizontal_line m w r) <= 40)%nat).
Proof.
  split; [|split; [|split]].
  - intros qx qy Hd; apply grid_glow_spec.
    pose proof (euclid_ge_dx qx qy (Grid.px m) (Grid.py m)); lra.
  - intros qx qy Hd; apply grid_glow_spec.
    pose proof (euclid_ge_dy qx qy (Grid.px m) (Grid.py m)); lra.
  - intros h c; unfold Grid.vertical_line.
    destruct (JS.ltb _ _); [|cbn; lia].
    etransitivity; [apply flat_map_length_le|].
    + intros s; destruct (Grid.glow m _ _); cbn; lia.
    + rewrite length_seq; reflexivity.
  - intros w r; unfold Grid.horizontal_line.
    destruct (JS.ltb _ _); [|cbn; lia].
    etransitivity; [apply flat_map_length_le|].
    + intros s; destruct (Grid.glow m _ _); cbn; lia.
    + rewrite length_seq; reflexivity.
Qed.

Lemma grid_line_test_is_sound_witness :
  Grid.GLOW_RADIUS <= Rabs (500 - Grid.px (Grid.mkPoint 100 100))
  /\ Grid.glow (Grid.mkPoint 100 100) 500 100 = None.
Proof.
  assert (Hd : Grid.GLOW_RADIUS <= Rabs (500 - Grid.px (Grid.mkPoint 100 100))).
  { cbn [Grid.px]; rewrite Rabs_pos_eq by lra; unfold Grid.GLOW_RADIUS; lra. }
  split; [exact Hd|].
  apply (proj1 (grid_line_test_is_sound (Grid.mkPoint 100 100)) 500 100 Hd).
Defined.

Lemma flat_map_nil {A B : Type} (f : A -> list B) (l : list A) :
  (forall a, f a = []) -> flat_map f l = [].
Proof.
  intros H; induction l as [|a l IH]; cbn [flat_map]; [reflexivity|].
  now rewrite H, IH.
Qed.

Lemma grid_far_blank (m : Grid.Point) (w h : Z) (c r : nat) :
  Grid.px m <= -220 -> Grid.py m <= -220 ->
  Grid.vertical_line m h c = []
  /\ Grid.horizontal_line m w r = []
  /\ Grid.intersection m c r = [].
Proof.
  intros Hx Hy.
  assert (Hc : 0 <= INR c * Grid.CELL)
    by (pose proof (pos_INR c); unfold Grid.CELL; nra).
  assert (Hr : 0 <= INR r * Grid.CELL)
    by (pose proof (pos_INR r); unfold Grid.CELL; nra).
  split; [|split].
  - unfold Grid.vertical_line.
    assert (E : JS.ltb (Rabs (INR c * Grid.CELL - Grid.px m)) Grid.GLOW_RADIUS
                = false).
    { apply ltb_false; rewrite Rabs_pos_eq by lra.
      unfold Grid.GLOW_RADIUS; lra. }
    now rewrite E.
  - unfold Grid.horizontal_line.
    assert (E : JS.ltb (Rabs (INR r * Grid.CELL - Grid.py m)) Grid.GLOW_RADIUS
                = false).
    { apply ltb_false; rewrite Rabs_pos_eq by lra.
      unfold Grid.GLOW_RADIUS; lra. }
    now rewrite E.
  - unfold Grid.intersection.
    assert (E : Grid.glow m (INR c * Grid.CELL) (INR r * Grid.CELL) = None).
    { apply grid_glow_spec.
      pose proof (euclid_ge_dx (INR c * Grid.CELL) (INR r * Grid.CELL)
                               (Grid.px m) (Grid.py m)) as Hd.
      rewrite Rabs_pos_eq in Hd by lra; unfold Grid.GLOW_RADIUS; lra. }
    now rewrite E.
Qed.

Lemma grid_far_frame (s : Grid.State) :
  Grid.px (Grid.smooth s) <= -220 -> Grid.py (Grid.smooth s) <= -220 ->
  snd (Grid.animate s)
  = ClearRect (IZR (Grid.W s)) (IZR (Grid.H s))
    :: Grid.draw_hub (Grid.mouseActive s) (Grid.smooth s).
Proof.
  intros Hx Hy; cbn [Grid.animate snd]; f_equal.
  rewrite !flat_map_nil; [reflexivity | | |].
  - intros c; apply flat_map_nil; intros r.
    apply (grid_far_blank (Grid.smooth s) 0 0 c r Hx Hy).
  - intros r; apply (grid_far_blank (Grid.smooth s) (Grid.W s) 0 0%nat r Hx Hy).
  - intros c; apply (grid_far_blank (Grid.smooth s) 0 (Grid.H s) c 0%nat Hx Hy).
Qed.

Lemma grid_initial_smooth (w h : Z) :
  Grid.smooth (Grid.resize w h Grid.state0) = Grid.mkPoint (-9999) (-9999).
Proof.
  unfold Grid.smooth, Grid.lerp; cbn; f_equal; lra.
Qed.

Lemma grid_initial_frame (w h : Z) :
  Grid.animate (Grid.resize w h Grid.state0)
  = (Grid.resize w h Grid.state0, [ClearRect (IZR w) (IZR h)]).
Proof.
  rewrite (surjective_pairing (Grid.animate _)); f_equal.
  - cbn [Grid.animate fst]; rewrite grid_initial_smooth; reflexivity.
  - rewrite grid_far_frame; rewrite grid_initial_smooth; cbn [Grid.px Grid.py];
      try lra.
    cbn [Grid.resize Grid.W Grid.H Grid.mouseActive Grid.state0].
    f_equal; unfold Grid.draw_hub, Grid.hub_drawn; cbn [orb Grid.px].
    assert (E : JS.gtb (-9999) (-5000) = false) by (apply gtb_false; lra).
    now rewrite E.
Qed.

(** X17. Until the pointer moves for the first time the grid stays dark:
    from the initial state, at any viewport size, every frame leaves the
    state as it is, with the smooth pointer at (-9999, -9999), and draws
    nothing after clearing the canvas.  More generally a frame whose smooth
    pointer is at least 220 to the left of and above the origin draws no
    line and no dot, only the cursor hub if that is due. *)
Theorem grid_dark_until_pointer_moves :
  (forall (w h : Z) (n : nat),
     Grid.run (Grid.idle n) (Grid.resize w h Grid.state0)
     = Grid.resize w h Grid.state0
     /\ snd (Grid.animate (Grid.run (Grid.idle n) (Grid.resize w h Grid.state0)))
        = [ClearRect (IZR w) (IZR h)])
  /\ (forall s : Grid.State,
        Grid.px (Grid.smooth s) <= -220 -> Grid.py (Grid.smooth s) <= -220 ->
        snd (Grid.animate s)
        = ClearRect (IZR (Grid.W s)) (IZR (Grid.H s))
          :: Grid.draw_hub (Grid.mouseActive s) (Grid.smooth s)).
Proof.
  split; [|exact grid_far_frame].
  intros w h n.
  assert (E : Grid.run (Grid.idle n) (Grid.resize w h Grid.state0)
              = Grid.resize w h Grid.state0).
  { induction n as [|n IH]; [reflexivity|].
    rewrite grid_idle_step, grid_initial_frame; exact IH. }
  split; [exact E|].
  rewrite E, grid_initial_frame; reflexivity.
Qed.

Lemma grid_dark_until_pointer_moves_witness :
  Grid.px (Grid.smooth (Grid.resize 1920 1080 Grid.state0)) <= -220
  /\ Grid.py (Grid.smooth (Grid.resize 1920 1080 Grid.state0)) <= -220
  /\ snd (Grid.animate (Grid.resize 1920 1080 Grid.state0))
     = ClearRect (IZR 1920) (IZR 1080)
       :: Grid.draw_hub false (Grid.smooth (Grid.resize 1920 1080 Grid.state0)).
Proof.
  assert (Hx : Grid.px (Grid.smooth (Grid.resize 1920 1080 Grid.state0))
               <= -220)
    by (rewrite grid_initial_smooth; cbn [Grid.px]; lra).
  assert (Hy : Grid.py (Grid.smooth (Grid.resize 1920 1080 Grid.state0))
               <= -220)
    by (rewrite grid_initial_smooth; cbn [Grid.py]; lra).
  split; [exact Hx | split; [exact Hy|]].
  apply (proj2 grid_dark_until_pointer_moves
           (Grid.resize 1920 1080 Grid.state0) Hx Hy).
Defined.

(** ** The smooth pointer while the pointer is tracked *)

Lemma grid_single_lerp (c raw : R) :
  Grid.lerp c raw 0.12 - raw = 0.88 * (c - raw).
Proof. unfold Grid.lerp; lra. Qed.

Lemma grid_idle_active (n : nat) (s : Grid.State) :
  Grid.mouseActive s = true ->
  Grid.px (Grid.mouse (Grid.run (Grid.idle n) s)) - Grid.px (Grid.rawMouse s)
  = 0.88 ^ n * (Grid.px (Grid.mouse s) - Grid.px (Grid.rawMouse s))
  /\ Grid.py (Grid.mouse (Grid.run (Grid.idle n) s))
     - Grid.py (Grid.rawMouse s)
     = 0.88 ^ n * (Grid.py (Grid.mouse s) - Grid.py (Grid.rawMouse s)).
Proof.
  revert s; induction n as [|n IH]; intros s Hs.
  - cbn [Grid.idle repeat Grid.run pow]; split; ring.
  - rewrite grid_idle_step.
    destruct (IH (fst (Grid.animate s)) Hs) as [Ex Ey].
    change (Grid.rawMouse (fst (Grid.animate s))) with (Grid.rawMouse s)
      in Ex, Ey.
    change (Grid.mouse (fst (Grid.animate s))) with (Grid.smooth s) in Ex, Ey.
    rewrite (grid_smooth_active s Hs) in Ex, Ey.
    cbn [Grid.px Grid.py] in Ex, Ey.
    rewrite grid_single_lerp in Ex, Ey.
    rewrite Ex, Ey; cbn [pow]; split; ring.
Qed.

(** X18. While the pointer is active and does not move, every frame brings
    the smooth pointer 12 per cent closer to the raw pointer on each axis:
    after [n] frames the remaining offset is [0.88 ^ n] times the initial
    one, of the same sign (no overshoot), and the smooth pointer tends to
    the raw pointer. *)
Theorem grid_active_pointer_tracks_raw (s : Grid.State) :
  Grid.mouseActive s = true ->
  (forall n : nat,
     Grid.px (Grid.mouse (Grid.run (Grid.idle n) s))
     - Grid.px (Grid.rawMouse s)
     = 0.88 ^ n * (Grid.px (Grid.mouse s) - Grid.px (Grid.rawMouse s))
     /\ Grid.py (Grid.mouse (Grid.run (Grid.idle n) s))
        - Grid.py (Grid.rawMouse s)
        = 0.88 ^ n * (Grid.py (Grid.mouse s) - Grid.py (Grid.rawMouse s)))
  /\ Un_cv (fun n => Grid.px (Grid.mouse (Grid.run (Grid.idle n) s)))
           (Grid.px (Grid.rawMouse s))
  /\ Un_cv (fun n => Grid.py (Grid.mouse (Grid.run (Grid.idle n) s)))
           (Grid.py (Grid.rawMouse s)).
Proof.
  intros Hs; split; [intros n; now apply grid_idle_active|]; split.
  - apply geometric_cv with (q := 0.88)
      (c := Grid.px (Grid.mouse s) - Grid.px (Grid.rawMouse s)).
    + rewrite Rabs_pos_eq; lra.
    + intros n; apply (grid_idle_active n s Hs).
  - apply geometric_cv with (q := 0.88)
      (c := Grid.py (Grid.mouse s) - Grid.py (Grid.rawMouse s)).
    + rewrite Rabs_pos_eq; lra.
    + intros n; apply (grid_idle_active n s Hs).
Qed.

Lemma grid_active_pointer_tracks_raw_witness :
  Grid.mouseActive Sample.tracking_grid = true
  /\ Un_cv (fun n =>
              Grid.px (Grid.mouse (Grid.run (Grid.idle n) Sample.tracking_grid)))
           (Grid.px (Grid.rawMouse Sample.tracking_grid)).
Proof.
  split; [reflexivity|].
  apply (proj1 (proj2 (grid_active_pointer_tracks_raw Sample.tracking_grid
                         eq_refl))).
Defined.

(** ** The extent of the grid *)

(** X19. The grid always reaches past the viewport: with [cols] and [rows]
    as the frame computes them, the last vertical line is between 50 and
    100 to the right of the viewport width and the last horizontal line
    between 50 and 100 below its height, and the frame visits [cols + 1]
    vertical and [rows + 1] horizontal lines. *)
Theorem grid_extent (s : Grid.State) :
  (0 <= Grid.W s)%Z -> (0 <= Grid.H s)%Z ->
  (IZR (Grid.W s) + 50 <= IZR (Grid.cols s) * Grid.CELL < IZR (Grid.W s) + 100)
  /\ (IZR (Grid.H s) + 50 <= IZR (Grid.rows s) * Grid.CELL
      < IZR (Grid.H s) + 100)
  /\ Z.of_nat (List.length (Grid.upto (Grid.cols s))) = (Grid.cols s + 1)%Z
  /\ Z.of_nat (List.length (Grid.upto (Grid.rows s))) = (Grid.rows s + 1)%Z.
Proof.
  intros Hw Hh; pose proof (IZR_le _ _ Hw) as Hw'.
  pose proof (IZR_le _ _ Hh) as Hh'.
  unfold Grid.cols, Grid.rows, Grid.upto, Grid.CELL.
  pose proof (Zceil_bound (IZR (Grid.W s) / 50)) as Bw.
  pose proof (Zceil_bound (IZR (Grid.H s) / 50)) as Bh.
  assert (Cw : (0 <= Zceil (IZR (Grid.W s) / 50))%Z)
    by (apply le_IZR; lra).
  assert (Ch : (0 <= Zceil (IZR (Grid.H s) / 50))%Z)
    by (apply le_IZR; lra).
  rewrite !plus_IZR, !length_seq.
  repeat split; try lra; lia.
Qed.

Lemma grid_extent_witness :
  (0 <= Grid.W Sample.tracking_grid)%Z /\ (0 <= Grid.H Sample.tracking_grid)%Z
  /\ IZR (Grid.W Sample.tracking_grid) + 50
     <= IZR (Grid.cols Sample.tracking_grid) * Grid.CELL
     < IZR (Grid.W Sample.tracking_grid) + 100.
Proof.
  assert (Hw : (0 <= Grid.W Sample.tracking_grid)%Z) by (cbn; lia).
  assert (Hh : (0 <= Grid.H Sample.tracking_grid)%Z) by (cbn; lia).
  split; [exact Hw | split; [exact Hh|]].
  apply (proj1 (grid_extent Sample.tracking_grid Hw Hh)).
Defined.

(** ** Mounting and teardown *)

Lemma add_one_shape (b : Effect.Listener) (h : Effect.Host) :
  exists ext,
    Effect.listeners (Effect.addEventListener b h) = Effect.listeners h ++ ext
    /\ incl ext [b]
    /\ Effect.pending (Effect.addEventListener b h) = Effect.pending h
    /\ Effect.next (Effect.addEventListener b h) = Effect.next h.
Proof.
  unfold Effect.addEventListener.
  destruct (in_dec Effect.Listener_eq_dec b (Effect.listeners h)).
  - exists []; rewrite app_nil_r; repeat split; intros x [].
  - exists [b]; repeat split; apply incl_refl.
Qed.

Lemma add_all_shape (bs : list Effect.Listener) (h : Effect.Host) :
  exists ext,
    Effect.listeners (fold_left (fun g l => Effect.addEventListener l g) bs h)
    = Effect.listeners h ++ ext
    /\ incl ext bs
    /\ Effect.pending (fold_left (fun g l => Effect.addEventListener l g) bs h)
       = Effect.pending h
    /\ Effect.next (fold_left (fun g l => Effect.addEventListener l g) bs h)
       = Effect.next h.
Proof.
  revert h; induction bs as [|b bs IH]; intros h; cbn [fold_left].
  - exists []; rewrite app_nil_r; repeat split; apply incl_refl.
  - destruct (IH (Effect.addEventListener b h)) as [ext [E [I [P N]]]].
    destruct (add_one_shape b h) as [e1 [E1 [I1 [P1 N1]]]].
    exists (e1 ++ ext); rewrite E, E1, P, P1, N, N1, app_assoc.
    repeat split.
    apply incl_app; [|now apply incl_tl].
    intros x Hx; destruct (I1 x Hx) as [<- | []]; now left.
Qed.

Lemma remove_all_fold (us : list Effect.Listener) (h : Effect.Host) :
  fold_left (fun g l => Effect.removeEventListener l g) us h
  = Effect.mkHost
      (fold_left (fun ls u => remove Effect.Listener_eq_dec u ls) us
                 (Effect.listeners h))
      (Effect.pending h) (Effect.next h).
Proof.
  revert h; induction us as [|u us IH]; intros h; cbn [fold_left].
  - now destruct h.
  - rewrite IH; reflexivity.
Qed.

Lemma remove_all_app (us ls ext : list Effect.Listener) :
  (forall u, In u us -> ~ In u ls) ->
  fold_left (fun l u => remove Effect.Listener_eq_dec u l) us (ls ++ ext)
  = ls ++ fold_left (fun l u => remove Effect.Listener_eq_dec u l) us ext.
Proof.
  revert ext; induction us as [|u us IH]; intros ext H; cbn [fold_left];
    [reflexivity|].
  rewrite remove_app, (notin_remove _ ls u) by (apply H; now left).
  apply IH; intros u' Hu'; apply H; now right.
Qed.

Lemma remove_all_incl (us ext : list Effect.Listener) :
  incl ext us ->
  fold_left (fun l u => remove Effect.Listener_eq_dec u l) us ext = [].
Proof.
  revert ext; induction us as [|u us IH]; intros ext H; cbn [fold_left].
  - destruct ext as [|e ext]; [reflexivity|].
    destruct (H e (or_introl eq_refl)).
  - apply IH; intros e He.
    apply in_remove in He; destruct He as [He Hne].
    destruct (H e He) as [<- | Hin]; [congruence | exact Hin].
Qed.

Lemma remove_last_fresh (pd : list nat) (raf : nat) :
  Forall (fun id => (id < raf)%nat) pd ->
  remove Nat.eq_dec raf (pd ++ [raf]) = pd.
Proof.
  intros Hpd; rewrite remove_app, notin_remove.
  - cbn; destruct (Nat.eq_dec raf raf); [apply app_nil_r | congruence].
  - intros Hin; rewrite Forall_forall in Hpd; specialize (Hpd raf Hin); lia.
Qed.

Lemma frames_shape (k : nat) (pd : list nat) (raf : nat) (h : Effect.Host) :
  Forall (fun id => (id < raf)%nat) pd ->
  Effect.pending h = pd ++ [raf] -> (raf < Effect.next h)%nat ->
  let '(h', raf') := Effect.frames k raf h in
  Effect.listeners h' = Effect.listeners h
  /\ Effect.pending h' = pd ++ [raf']
  /\ Forall (fun id => (id < raf')%nat) pd.
Proof.
  revert raf h; induction k as [|k IH]; intros raf h Hpd Hp Hn;
    cbn [Effect.frames]; [now repeat split|].
  unfold Effect.frame, Effect.requestAnimationFrame;
    cbn [Effect.listeners Effect.pending Effect.next].
  rewrite Hp, remove_last_fresh by assumption.
  specialize (IH (Effect.next h)
                (Effect.mkHost (Effect.listeners h)
                   (pd ++ [Effect.next h]) (S (Effect.next h)))).
  cbn [Effect.listeners Effect.pending Effect.next] in IH.
  apply IH; [|reflexivity | lia].
  eapply Forall_impl; [|exact Hpd]; cbn; intros id Hid; lia.
Qed.

Lemma lifetime_restores (bind unbind : list Effect.Listener)
      (canvas ctx : bool) (k : nat) (h : Effect.Host) :
  incl bind unbind ->
  (forall l, In l unbind -> ~ In l (Effect.listeners h)) ->
  Forall (fun id => (id < Effect.next h)%nat) (Effect.pending h) ->
  Effect.listeners (Effect.lifetime bind unbind canvas ctx k h)
  = Effect.listeners h
  /\ Effect.pending (Effect.lifetime bind unbind canvas ctx k h)
     = Effect.pending h.
Proof.
  intros Hincl Hfresh Hids; unfold Effect.lifetime, Effect.mount.
  destruct (canvas && ctx); [|now split].
  destruct (add_all_shape bind h) as [ext [E [I [P N]]]].
  unfold Effect.requestAnimationFrame; rewrite P, N.
  pose proof (frames_shape k (Effect.pending h) (Effect.next h)
                (Effect.mkHost
                   (Effect.listeners
                      (fold_left (fun g l => Effect.addEventListener l g)
                                 bind h))
                   (Effect.pending h ++ [Effect.next h])
                   (S (Effect.next h)))
                Hids eq_refl (Nat.lt_succ_diag_r _)) as Hf.
  destruct (Effect.frames k _ _) as [h2 raf2].
  cbn [Effect.listeners] in Hf; destruct Hf as [L [Pd F]].
  unfold Effect.teardown; rewrite remove_all_fold.
  cbn [Effect.cancelAnimationFrame Effect.listeners Effect.pending].
  rewrite L, E, Pd, remove_all_app, remove_all_incl, app_nil_r,
    remove_last_fresh; try assumption; [now split|].
  intros l Hl; apply Hincl, I, Hl.
Qed.

(** X20. Teardown undoes mounting, in the three variants.  On a host where
    none of the effect's callbacks is registered yet and request ids grow,
    mounting, any number of frames and the cleanup leave the registered
    listeners and the pending frame requests exactly as they were before
    the mount: every listener that was added is removed, on the target it
    was added to, and the latest frame request is cancelled.  Without a
    canvas or a 2D context the effect binds and requests nothing. *)
Theorem teardown_undoes_mount (canvas ctx : bool) (k : nat) (h : Effect.Host) :
  Forall (fun id => (id < Effect.next h)%nat) (Effect.pending h) ->
  ((forall l, In l Effect.network_unbind -> ~ In l (Effect.listeners h)) ->
   let h' := Effect.lifetime Effect.network_bind Effect.network_unbind
               canvas ctx k h in
   Effect.listeners h' = Effect.listeners h
   /\ Effect.pending h' = Effect.pending h)
  /\ ((forall l, In l Effect.repulsion_unbind -> ~ In l (Effect.listeners h)) ->
      let h' := Effect.lifetime Effect.repulsion_bind Effect.repulsion_unbind
                  canvas ctx k h in
      Effect.listeners h' = Effect.listeners h
      /\ Effect.pending h' = Effect.pending h)
  /\ ((forall l, In l Effect.grid_unbind -> ~ In l (Effect.listeners h)) ->
      let h' := Effect.lifetime Effect.grid_bind Effect.grid_unbind
                  canvas ctx k h in
      Effect.listeners h' = Effect.listeners h
      /\ Effect.pending h' = Effect.pending h)
  /\ (canvas && ctx = false ->
      forall bind, Effect.mount bind canvas ctx h = (h, None)).
Proof.
  intros Hids; split; [|split; [|split]].
  - intros Hf; apply lifetime_restores; [apply incl_refl | exact Hf | exact Hids].
  - intros Hf; apply lifetime_restores; [apply incl_refl | exact Hf | exact Hids].
  - intros Hf; apply lifetime_restores; [apply incl_refl | exact Hf | exact Hids].
  - intros E bind; unfold Effect.mount; now rewrite E.
Qed.

Lemma teardown_undoes_mount_witness :
  Forall (fun id => (id < 0)%nat) []
  /\ (forall l, In l Effect.network_unbind -> ~ In l [])
  /\ Effect.listeners
       (Effect.lifetime Effect.network_bind Effect.network_unbind
          true true 3 (Effect.mkHost [] [] 0)) = [].
Proof.
  assert (Hids : Forall (fun id => (id < 0)%nat) []) by constructor.
  assert (Hf : forall l, In l Effect.network_unbind -> ~ In l [])
    by (intros l _ H; exact H).
  split; [exact Hids | split; [exact Hf|]].
  apply (proj1 (proj1 (teardown_undoes_mount true true 3
                         (Effect.mkHost [] [] 0) Hids) Hf)).
Defined.

(** ** A resting node settles on its target *)

Lemma network_idle_nodes (k : nat) (f : Network.Field) :
  Network.nodes (Network.run (repeat [] k) f)
  = map (Nat.iter k (Network.update (Network.W f) (Network.H f)
                                    (Network.mouse f)))
        (Network.nodes f).
Proof.
  revert f; induction k as [|k IH]; intros f; cbn [repeat Network.run].
  - cbn [Nat.iter nat_rect]; symmetry; apply map_id.
  - cbn [fold_left]; rewrite IH.
    cbn [Network.animate fst Network.W Network.H Network.mouse Network.nodes].
    rewrite map_map; apply map_ext; intros n.
    now rewrite Nat.iter_succ_r.
Qed.

Lemma network_resting_step (w h : Z) (m : Network.Mouse) (n0 n : Network.Node) :
  (0 <= w)%Z -> (0 <= h)%Z ->
  Network.vx n0 = 0 -> Network.vy n0 = 0 -> Network.home_inv w h n0 ->
  Network.fixed_part n = Network.fixed_part n0 ->
  Network.ox n = Network.ox n0 -> Network.oy n = Network.oy n0 ->
  let tg := Network.target m (Network.ox n0) (Network.oy n0) in
  let n' := Network.update w h m n in
  Network.fixed_part n' = Network.fixed_part n0
  /\ Network.ox n' = Network.ox n0 /\ Network.oy n' = Network.oy n0
  /\ Network.x n' - fst tg = 0.93 * (Network.x n - fst tg)
  /\ Network.y n' - snd tg = 0.93 * (Network.y n - snd tg).
Proof.
  intros Hw Hh Vx Vy [Ix Iy] Hf Ex Ey tg n'.
  assert (Vn : Network.vx n = 0 /\ Network.vy n = 0).
  { unfold Network.fixed_part in Hf; injection Hf as -> -> _ _; now split. }
  destruct Vn as [Vnx Vny].
  destruct (network_update_home w h m n) as [Hx Hy].
  destruct (network_update_render w h m n) as [Rx Ry].
  fold n' in Hx, Hy, Rx, Ry.
  rewrite Vnx, Rplus_0_r, Ex, network_wrap_inside in Hx by assumption.
  rewrite Vny, Rplus_0_r, Ey, network_wrap_inside in Hy by assumption.
  rewrite Hx, Hy in Rx, Ry; fold tg in Rx, Ry.
  split; [subst n'; now rewrite network_update_fixed|].
  split; [exact Hx | split; [exact Hy|]].
  rewrite Rx, Ry; unfold Network.lerp, Network.LERP_RETURN; split; lra.
Qed.

Lemma network_resting_iter (w h : Z) (m : Network.Mouse) (n0 : Network.Node)
      (k : nat) :
  (0 <= w)%Z -> (0 <= h)%Z ->
  Network.vx n0 = 0 -> Network.vy n0 = 0 -> Network.home_inv w h n0 ->
  let tg := Network.target m (Network.ox n0) (Network.oy n0) in
  let nk := Nat.iter k (Network.update w h m) n0 in
  Network.fixed_part nk = Network.fixed_part n0
  /\ Network.ox nk = Network.ox n0 /\ Network.oy nk = Network.oy n0
  /\ Network.x nk - fst tg = 0.93 ^ k * (Network.x n0 - fst tg)
  /\ Network.y nk - snd tg = 0.93 ^ k * (Network.y n0 - snd tg).
Proof.
  intros Hw Hh Vx Vy Hi tg; induction k as [|k IH].
  - cbn [Nat.iter nat_rect pow]; repeat split; ring.
  - cbn zeta in IH |- *; destruct IH as [Hf [Ex [Ey [Dx Dy]]]].
    rewrite Nat.iter_succ.
    destruct (network_resting_step w h m n0
                (Nat.iter k (Network.update w h m) n0)
                Hw Hh Vx Vy Hi Hf Ex Ey) as [Hf' [Ex' [Ey' [Dx' Dy']]]].
    fold tg in Dx', Dy'.
    split; [exact Hf' | split; [exact Ex' | split; [exact Ey'|]]].
    rewrite Dx', Dy', Dx, Dy; cbn [pow]; split; ring.
Qed.

(** X21. A node without drift settles on its target.  For a node of the
    network with zero drift velocity, its home position within the wrap
    margin, and a pointer that does not change, each frame leaves the home
    position where it is and takes the rendered position 7 per cent of the
    way to the target: after [k] frames the offset from the target is
    [0.93 ^ k] times the initial offset on each axis, and the rendered
    position tends to the target (the home position itself when the pointer
    is inactive or out of reach).  The nodes after [k] frames without
    events are those of [k] updates under the same pointer. *)
Theorem network_resting_node_converges (w h : Z) (m : Network.Mouse)
        (n0 : Network.Node) :
  (0 <= w)%Z -> (0 <= h)%Z ->
  Network.vx n0 = 0 -> Network.vy n0 = 0 -> Network.home_inv w h n0 ->
  let tg := Network.target m (Network.ox n0) (Network.oy n0) in
  let node k := Nat.iter k (Network.update w h m) n0 in
  (forall k : nat,
     Network.ox (node k) = Network.ox n0 /\ Network.oy (node k) = Network.oy n0
     /\ Network.x (node k) - fst tg = 0.93 ^ k * (Network.x n0 - fst tg)
     /\ Network.y (node k) - snd tg = 0.93 ^ k * (Network.y n0 - snd tg))
  /\ Un_cv (fun k => Network.x (node k)) (fst tg)
  /\ Un_cv (fun k => Network.y (node k)) (snd tg)
  /\ (forall (k : nat) (f : Network.Field),
        Network.nodes (Network.run (repeat [] k) f)
        = map (Nat.iter k (Network.update (Network.W f) (Network.H f)
                                          (Network.mouse f)))
              (Network.nodes f)).
Proof.
  intros Hw Hh Vx Vy Hi tg node.
  assert (Step : forall k,
             Network.x (node k) - fst tg = 0.93 ^ k * (Network.x n0 - fst tg)
             /\ Network.y (node k) - snd tg
                = 0.93 ^ k * (Network.y n0 - snd tg)).
  { intros k.
    destruct (network_resting_iter w h m n0 k Hw Hh Vx Vy Hi)
      as [_ [_ [_ H]]]; exact H. }
  split; [|split; [|split]].
  - intros k.
    destruct (network_resting_iter w h m n0 k Hw Hh Vx Vy Hi)
      as [_ [Ex [Ey H]]].
    split; [exact Ex | split; [exact Ey | exact H]].
  - apply geometric_cv with (q := 0.93) (c := Network.x n0 - fst tg).
    + rewrite Rabs_pos_eq; lra.
    + intros k; apply Step.
  - apply geometric_cv with (q := 0.93) (c := Network.y n0 - snd tg).
    + rewrite Rabs_pos_eq; lra.
    + intros k; apply Step.
  - exact network_idle_nodes.
Qed.

Lemma network_resting_node_converges_witness :
  (0 <= 1920)%Z /\ (0 <= 1080)%Z
  /\ Network.vx Sample.node_b = 0 /\ Network.vy Sample.node_b = 0
  /\ Network.home_inv 1920 1080 Sample.node_b
  /\ Un_cv (fun k =>
              Network.x (Nat.iter k (Network.update 1920 1080
                                       (Network.mkMouse 0 0 true))
                                  Sample.node_b))
           (fst (Network.target (Network.mkMouse 0 0 true)
                   (Network.ox Sample.node_b) (Network.oy Sample.node_b))).
Proof.
  assert (Hw : (0 <= 1920)%Z) by lia.
  assert (Hh : (0 <= 1080)%Z) by lia.
  assert (Hi : Network.home_inv 1920 1080 Sample.node_b)
    by (unfold Network.home_inv; cbn; lra).
  split; [exact Hw | split; [exact Hh|]].
  split; [reflexivity | split; [reflexivity | split; [exact Hi|]]].
  apply (proj1 (proj2 (network_resting_node_converges 1920 1080
                         (Network.mkMouse 0 0 true) Sample.node_b
                         Hw Hh eq_refl eq_refl Hi))).
Defined.
